(** * Black_Hole_102: the dictionary tokenisation codec

    A shallow embedding of [Black_Hole_102.py]: the dictionary loader, the
    tokeniser ([re.findall(r'\S+|\s+', text)]), the tagged-stream encoder
    [compress_text_with_dictionary], the decoder
    [decompress_text_with_dictionary] and the byte complement
    [transform_with_pattern].

    Conventions.
    - A Python [str] is the list of its code points, a [bytes]/[bytearray]
      the list of its byte values; both are lists of [Z].
    - A Python exception is a value [Raise e] of the error monad [res].
    - The [while] loop of the decoder is run with fuel; [None] means that
      the fuel ran out, and is shown never to happen. *)

From Stdlib Require Import ZArith List Bool Lia Arith.
From Stdlib Require Import Permutation Sorted.
Import ListNotations.
Local Open Scope Z_scope.

Set Implicit Arguments.

(** ** Exceptions *)

Inductive exn : Type :=
| ValueError          (* bytearray.append: byte must be in range(0, 256) *)
| IndexError          (* subscript out of range *)
| UnicodeEncodeError. (* str.encode, strict: surrogates not allowed *)

Inductive res (A : Type) : Type :=
| Ok (a : A)
| Raise (e : exn).

Arguments Ok {A} a.
Arguments Raise {A} e.

Definition bind {A B : Type} (c : res A) (k : A -> res B) : res B :=
  match c with
  | Ok a => k a
  | Raise e => Raise e
  end.

Notation "x <- c ;; k" := (bind c (fun x => k))
  (at level 61, c at next level, right associativity).

Definition str := list Z.
Definition bytes := list Z.

(** ** Strings: whitespace, [re.findall], [strip], [split] *)

Module PyStr.

(** [Py_UNICODE_ISSPACE]: the predicate behind [str.isspace], [str.split],
    [str.strip] and the class [\s] of a [str] pattern. *)
Definition isspace_char (c : Z) : bool :=
  ((0x09 <=? c) && (c <=? 0x0D)) || ((0x1C <=? c) && (c <=? 0x20))
  || (c =? 0x85) || (c =? 0xA0) || (c =? 0x1680)
  || ((0x2000 <=? c) && (c <=? 0x200A))
  || (c =? 0x2028) || (c =? 0x2029) || (c =? 0x202F) || (c =? 0x205F)
  || (c =? 0x3000).

Definition nonspace_char (c : Z) : bool := negb (isspace_char c).

(** [s.isspace()]: at least one character, and all of them whitespace. *)
Definition isspace (s : str) : bool :=
  match s with
  | [] => false
  | _ :: _ => forallb isspace_char s
  end.

(** The longest prefix of [s] whose characters satisfy [p], and the rest:
    a greedy [p*]. *)
Fixpoint span (p : Z -> bool) (s : str) : str * str :=
  match s with
  | [] => ([], [])
  | c :: s' =>
      if p c then let (m, r) := span p s' in (c :: m, r) else ([], s)
  end.

(** One match of [\S+|\s+] anchored at the start of [text]: the first
    alternative that consumes at least one character. *)
Definition match_at (text : str) : option (str * str) :=
  match span nonspace_char text with
  | ((_ :: _) as m, rest) => Some (m, rest)
  | ([], _) =>
      match span isspace_char text with
      | ((_ :: _) as m, rest) => Some (m, rest)
      | ([], _) => None
      end
  end.

(** The scan of [re.findall]: match at the current position, resume after
    the match; where nothing matches, move one character on. *)
Fixpoint findall_from (fuel : nat) (text : str) : list str :=
  match fuel with
  | O => []
  | S fuel' =>
      match text with
      | [] => []
      | _ :: text' =>
          match match_at text with
          | Some (m, rest) => m :: findall_from fuel' rest
          | None => findall_from fuel' text'
          end
      end
  end.

(** [re.findall(r'\S+|\s+', text)] *)
Definition findall (text : str) : list str :=
  findall_from (length text) text.

(** A token: a non-empty run of characters of one class. *)
Definition run (tok : str) : Prop :=
  tok <> [] /\
  (forallb isspace_char tok = true \/ forallb nonspace_char tok = true).

(** Neighbouring tokens are of different classes: every run is maximal. *)
Fixpoint alternating (tokens : list str) : Prop :=
  match tokens with
  | t1 :: ((t2 :: _) as rest) =>
      isspace t1 = negb (isspace t2) /\ alternating rest
  | _ => True
  end.

Fixpoint dropwhile (p : Z -> bool) (s : str) : str :=
  match s with
  | [] => []
  | c :: s' => if p c then dropwhile p s' else s
  end.

(** [s.strip()] *)
Definition strip (s : str) : str :=
  rev (dropwhile isspace_char (rev (dropwhile isspace_char s))).

(** [s.split()]: the maximal runs of non-whitespace characters. *)
Fixpoint split_from (fuel : nat) (s : str) : list str :=
  match fuel with
  | O => []
  | S fuel' =>
      match dropwhile isspace_char s with
      | [] => []
      | s1 => let (w, rest) := span nonspace_char s1 in
              w :: split_from fuel' rest
      end
  end.

Definition split (s : str) : list str := split_from (S (length s)) s.

End PyStr.

(** ** UTF-8: [str.encode('utf-8')] and [bytes.decode('utf-8', errors='ignore')] *)

Module Utf8.

Definition is_surrogate (c : Z) : bool := (0xD800 <=? c) && (c <=? 0xDFFF).

(** The bytes of one code point; [None] for a surrogate, which UTF-8 cannot
    encode, and for a number that is no code point at all. *)
Definition encode_char (c : Z) : option bytes :=
  if c <? 0 then None
  else if c <? 0x80 then Some [c]
  else if c <? 0x800 then Some [0xC0 + c / 64; 0x80 + c mod 64]
  else if is_surrogate c then None
  else if c <? 0x10000 then
    Some [0xE0 + c / 4096; 0x80 + (c / 64) mod 64; 0x80 + c mod 64]
  else if c <? 0x110000 then
    Some [0xF0 + c / 262144; 0x80 + (c / 4096) mod 64;
          0x80 + (c / 64) mod 64; 0x80 + c mod 64]
  else None.

(** [s.encode('utf-8')]: the strict handler raises on the first character
    that cannot be encoded. *)
Fixpoint encode_strict (s : str) : res bytes :=
  match s with
  | [] => Ok []
  | c :: s' =>
      match encode_char c with
      | Some bs => rest <- encode_strict s' ;; Ok (bs ++ rest)
      | None => Raise UnicodeEncodeError
      end
  end.

(** [s.encode('utf-8', errors='ignore')]: such characters are left out. *)
Fixpoint encode_ignore (s : str) : bytes :=
  match s with
  | [] => []
  | c :: s' =>
      match encode_char c with
      | Some bs => bs ++ encode_ignore s'
      | None => encode_ignore s'
      end
  end.

Definition is_cont (b : Z) : bool := (0x80 <=? b) && (b <=? 0xBF).

(** The second byte allowed after the lead byte [b0] of a three-byte
    sequence: no overlong form after E0, no surrogate after ED. *)
Definition second_of_3 (b0 b1 : Z) : bool :=
  is_cont b1 &&
  (if b0 =? 0xE0 then 0xA0 <=? b1 else if b0 =? 0xED then b1 <? 0xA0 else true).

(** The same for a four-byte sequence: no overlong form after F0, nothing
    above U+10FFFF after F4. *)
Definition second_of_4 (b0 b1 : Z) : bool :=
  is_cont b1 &&
  (if b0 =? 0xF0 then 0x90 <=? b1 else if b0 =? 0xF4 then b1 <? 0x90 else true).

(** [bs.decode('utf-8', errors='ignore')]: an invalid start byte is dropped;
    a sequence broken by a wrong byte or by the end of the data is dropped
    up to, and not including, the offending byte, where decoding resumes. *)
Fixpoint decode_ignore (bs : bytes) : str :=
  match bs with
  | [] => []
  | b0 :: r0 =>
      if b0 <? 0x80 then b0 :: decode_ignore r0
      else if b0 <? 0xC2 then decode_ignore r0
      else if b0 <? 0xE0 then
        match r0 with
        | [] => []
        | b1 :: r1 =>
            if is_cont b1
            then ((b0 - 0xC0) * 64 + (b1 - 0x80)) :: decode_ignore r1
            else decode_ignore r0
        end
      else if b0 <? 0xF0 then
        match r0 with
        | [] => []
        | b1 :: r1 =>
            if second_of_3 b0 b1 then
              match r1 with
              | [] => []
              | b2 :: r2 =>
                  if is_cont b2
                  then ((b0 - 0xE0) * 4096 + (b1 - 0x80) * 64 + (b2 - 0x80))
                         :: decode_ignore r2
                  else decode_ignore r1
              end
            else decode_ignore r0
        end
      else if b0 <? 0xF5 then
        match r0 with
        | [] => []
        | b1 :: r1 =>
            if second_of_4 b0 b1 then
              match r1 with
              | [] => []
              | b2 :: r2 =>
                  if is_cont b2 then
                    match r2 with
                    | [] => []
                    | b3 :: r3 =>
                        if is_cont b3
                        then ((b0 - 0xF0) * 262144 + (b1 - 0x80) * 4096
                              + (b2 - 0x80) * 64 + (b3 - 0x80))
                               :: decode_ignore r3
                        else decode_ignore r2
                    end
                  else decode_ignore r1
              end
            else decode_ignore r0
        end
      else decode_ignore r0
  end.

End Utf8.

(** ** Python's [dict]: insertion-ordered, one entry per key

    The order is observable here: [reverse_dict] is built by iterating
    [dictionary.items()], and a later item overwrites an earlier one with
    the same value. *)

Module PyDict.

Section Dict.
Variables K V : Type.
Variable K_eq_dec : forall x y : K, {x = y} + {x <> y}.

Definition dict := list (K * V).

(** [d.get(k)] *)
Fixpoint get (d : dict) (k : K) : option V :=
  match d with
  | [] => None
  | (k', v) :: d' => if K_eq_dec k' k then Some v else get d' k
  end.

(** [d.get(k, default)] *)
Definition get_default (d : dict) (k : K) (default : V) : V :=
  match get d k with
  | Some v => v
  | None => default
  end.

(** [d[k] = v]: an existing key keeps its place, a new key goes last. *)
Fixpoint set (d : dict) (k : K) (v : V) : dict :=
  match d with
  | [] => [(k, v)]
  | (k', v') :: d' =>
      if K_eq_dec k' k then (k', v) :: d' else (k', v') :: set d' k v
  end.

(** [d.items()] *)
Definition items (d : dict) : list (K * V) := d.
End Dict.

End PyDict.

Definition str_eq_dec : forall x y : str, {x = y} + {x <> y} :=
  list_eq_dec Z.eq_dec.

Definition word_dict : Type := PyDict.dict str Z.
Definition id_dict : Type := PyDict.dict Z str.

(** ** The program *)

(** [load_dictionary_from_file], on the lines read from the file. The loop
    state is [idx], the rank of the line, and [dictionary]. *)
Fixpoint load_loop (lines : list str) (idx max_lines : Z)
    (dictionary : word_dict) : word_dict :=
  match lines with
  | [] => dictionary
  | line :: lines' =>
      if max_lines <=? idx then dictionary
      else
        let parts := PyStr.split (PyStr.strip line) in
        let dictionary :=
          match parts with
          | w :: _ => PyDict.set str_eq_dec dictionary w idx
          | [] => dictionary
          end in
        load_loop lines' (idx + 1) max_lines dictionary
  end.

Definition load_dictionary_from_file (lines : list str) (max_lines : Z)
    : word_dict :=
  load_loop lines 0 max_lines [].

(** The default of the parameter [max_lines]. *)
Definition max_lines_default : Z := 2 ^ 24.

(** [bytes([...])] and [bytearray([...])]: every item must be a byte. *)
Definition is_byte (b : Z) : bool := (0 <=? b) && (b <? 256).

Definition bytes_of (l : list Z) : res bytes :=
  if forallb is_byte l then Ok l else Raise ValueError.

(** [ba.append(v)] *)
Definition bytearray_append (ba : bytes) (v : Z) : res bytes :=
  if is_byte v then Ok (ba ++ [v]) else Raise ValueError.

(** [data[i]], for [i >= 0] *)
Definition getitem (data : bytes) (i : nat) : res Z :=
  match nth_error data i with
  | Some b => Ok b
  | None => Raise IndexError
  end.

(** [data[i:j]], for [0 <= i <= j] *)
Definition slice (data : bytes) (i j : nat) : bytes :=
  firstn (j - i) (skipn i data).

Definition int_to_3bytes (value : Z) : res bytes :=
  bytes_of [Z.land (Z.shiftr value 16) 0xFF;
            Z.land (Z.shiftr value 8) 0xFF;
            Z.land value 0xFF].

Definition bytes3_to_int (b : bytes) : res Z :=
  b0 <- getitem b 0 ;;
  b1 <- getitem b 1 ;;
  b2 <- getitem b 2 ;;
  Ok (Z.lor (Z.lor (Z.shiftl b0 16) (Z.shiftl b1 8)) b2).

(** The body of the [for token in tokens] loop of the encoder; [result] is
    the bytearray built so far. *)
Definition encode_token (dictionary : word_dict) (result : bytes)
    (token : str) : res bytes :=
  if PyStr.isspace token then
    result <- bytearray_append result 2 ;;
    encoded <- Utf8.encode_strict token ;;
    result <- bytearray_append result (Z.of_nat (length encoded)) ;;
    Ok (result ++ encoded)
  else
    match PyDict.get str_eq_dec dictionary token with
    | Some code =>
        result <- bytearray_append result 1 ;;
        id_bytes <- int_to_3bytes code ;;
        Ok (result ++ id_bytes)
    | None =>
        result <- bytearray_append result 0 ;;
        let raw := Utf8.encode_ignore token in
        result <- bytearray_append result (Z.of_nat (length raw)) ;;
        Ok (result ++ raw)
    end.

Fixpoint encode_tokens (dictionary : word_dict) (tokens : list str)
    (result : bytes) : res bytes :=
  match tokens with
  | [] => Ok result
  | token :: tokens' =>
      result <- encode_token dictionary result token ;;
      encode_tokens dictionary tokens' result
  end.

Definition compress_text_with_dictionary (text : str)
    (dictionary : word_dict) : res bytes :=
  encode_tokens dictionary (PyStr.findall text) [].

(** [{v: k for k, v in dictionary.items()}]: one item after the other,
    [reverse_dict[v] = k]. *)
Definition rev_step (rd : id_dict) (kv : str * Z) : id_dict :=
  PyDict.set Z.eq_dec rd (snd kv) (fst kv).

Definition reverse_of (dictionary : word_dict) : id_dict :=
  fold_left rev_step (PyDict.items dictionary) [].

(** How one run of a loop body ends. *)
Inductive control (S : Type) : Type :=
| Continue (s : S)
| Break (s : S).

Arguments Continue {S} s.
Arguments Break {S} s.

(** The state of the decoder's loop: the cursor [i] and the list [result]. *)
Definition dstate : Type := (nat * list str)%type.

(** The literal branch, shared by the tags 0 and 2. *)
Definition decode_literal (data : bytes) (i : nat) (result : list str)
    : res (control dstate) :=
  if (length data <=? i)%nat then Ok (Break (i, result))
  else
    len <- getitem data i ;;
    let i := (i + 1)%nat in
    let word := Utf8.decode_ignore (slice data i (i + Z.to_nat len)) in
    Ok (Continue ((i + Z.to_nat len)%nat, result ++ [word])).

(** The body of [while i < len(data)]. *)
Definition decode_step (data : bytes) (reverse_dict : id_dict) (st : dstate)
    : res (control dstate) :=
  let (i, result) := st in
  flag <- getitem data i ;;
  let i := (i + 1)%nat in
  if flag =? 1 then
    if (length data <? i + 3)%nat then Ok (Break (i, result))
    else
      code <- bytes3_to_int (slice data i (i + 3)) ;;
      let word := PyDict.get_default Z.eq_dec reverse_dict code [] in
      Ok (Continue ((i + 3)%nat, result ++ [word]))
  else if flag =? 0 then decode_literal data i result
  else if flag =? 2 then decode_literal data i result
  else Ok (Continue (i, result)).

Fixpoint decode_loop (fuel : nat) (data : bytes) (reverse_dict : id_dict)
    (st : dstate) {struct fuel} : option (res (list str)) :=
  if (fst st <? length data)%nat then
    match fuel with
    | O => None
    | S fuel' =>
        match decode_step data reverse_dict st with
        | Raise e => Some (Raise e)
        | Ok (Break st') => Some (Ok (snd st'))
        | Ok (Continue st') => decode_loop fuel' data reverse_dict st'
        end
    end
  else Some (Ok (snd st)).

(** [''.join(result)] *)
Definition join (result : list str) : str := concat result.

Definition decompress_text_with_dictionary (data : bytes)
    (dictionary : word_dict) : option (res str) :=
  let reverse_dict := reverse_of dictionary in
  match decode_loop (length data) data reverse_dict (0%nat, []) with
  | Some (Ok result) => Some (Ok (join result))
  | Some (Raise e) => Some (Raise e)
  | None => None
  end.

Definition transform_with_pattern (data : bytes) : res bytes :=
  bytes_of (map (fun b => Z.lxor b 0xFF) data).

(** The word a line of the word list contributes: its first field. *)
Definition first_word (line : str) : option str :=
  match PyStr.split (PyStr.strip line) with
  | w :: _ => Some w
  | [] => None
  end.

(** The word on the line of rank [id], if there is such a line. *)
Definition word_at (lines : list str) (id : Z) : option str :=
  if id <? 0 then None
  else match nth_error lines (Z.to_nat id) with
       | Some line => first_word line
       | None => None
       end.

(** ** The wire format, as the decoder reads it *)

(** The bytes of one complete record: a tag 1 and three id bytes, or a tag
    0 or 2, a length byte and that many payload bytes. *)
Inductive record_bytes : bytes -> Prop :=
| record_dict_ref (b0 b1 b2 : Z) : record_bytes [1; b0; b1; b2]
| record_literal (tag len : Z) (payload : bytes) :
    tag = 0 \/ tag = 2 ->
    Z.to_nat len = length payload ->
    record_bytes (tag :: len :: payload).

(** A record cut short by the end of the stream, with the text the decoder
    still takes from it. *)
Inductive truncated_record : bytes -> str -> Prop :=
| truncated_id (ids : bytes) :
    (length ids < 3)%nat -> truncated_record (1 :: ids) []
| truncated_length (tag : Z) :
    tag = 0 \/ tag = 2 -> truncated_record [tag] []
| truncated_payload (tag len : Z) (payload : bytes) :
    tag = 0 \/ tag = 2 ->
    (length payload < Z.to_nat len)%nat ->
    truncated_record (tag :: len :: payload) (Utf8.decode_ignore payload).

(** The text decoded from a stream. *)
Definition decoded (dictionary : word_dict) (data : bytes) : str :=
  match decompress_text_with_dictionary data dictionary with
  | Some (Ok s) => s
  | _ => []
  end.

(** The bytes that one token adds to the output. *)
Definition record_of (dictionary : word_dict) (token : str) : res bytes :=
  encode_token dictionary [] token.

(** The three id bytes read back as a number. *)
Definition id_of_bytes (b0 b1 b2 : Z) : Z :=
  Z.lor (Z.lor (Z.shiftl b0 16) (Z.shiftl b1 8)) b2.

(** A dictionary that the 3-byte id field can carry: every id is below
    [2^24] and [reverse_dict] leads from it back to its word. *)
Definition round_trip_dict (dictionary : word_dict) : Prop :=
  forall (w : str) (code : Z),
    PyDict.get str_eq_dec dictionary w = Some code ->
    (0 <= code < 2 ^ 24) /\
    PyDict.get Z.eq_dec (reverse_of dictionary) code = Some w.

(** The token has a UTF-8 encoding, of at most 255 bytes. *)
Definition fits_length_byte (token : str) : Prop :=
  exists encoded : bytes,
    Utf8.encode_strict token = Ok encoded /\ (length encoded <= 255)%nat.

(** A step result seen from a stream that has [n] more bytes in front and
    from a list [acc] of earlier results. *)
Definition relocate (n : nat) (acc : list str) (c : control dstate)
    : control dstate :=
  match c with
  | Continue (i, r) => Continue ((n + i)%nat, acc ++ r)
  | Break (i, r) => Break ((n + i)%nat, acc ++ r)
  end.

(** ** What the encoder accepts and what the decoder gives back *)

(** The character has a UTF-8 encoding. *)
Definition encodable (c : Z) : bool :=
  match Utf8.encode_char c with
  | Some _ => true
  | None => false
  end.

(** The token is a dictionary word, or its literal record has a length
    that one byte can hold. *)
Definition literal_fits (dictionary : word_dict) (token : str) : bool :=
  if PyStr.isspace token then
    (length (Utf8.encode_ignore token) <=? 255)%nat
  else
    match PyDict.get str_eq_dec dictionary token with
    | Some _ => true
    | None => (length (Utf8.encode_ignore token) <=? 255)%nat
    end.

(** The number of bytes of the token's record. *)
Definition record_length (dictionary : word_dict) (token : str) : nat :=
  if PyStr.isspace token then (2 + length (Utf8.encode_ignore token))%nat
  else
    match PyDict.get str_eq_dec dictionary token with
    | Some _ => 4%nat
    | None => (2 + length (Utf8.encode_ignore token))%nat
    end.

(** The token as it comes back from its record: a word that goes out as a
    literal loses the characters that UTF-8 cannot encode. *)
Definition survives (dictionary : word_dict) (token : str) : str :=
  if PyStr.isspace token then token
  else
    match PyDict.get str_eq_dec dictionary token with
    | Some _ => token
    | None => filter encodable token
    end.

(** ** The commands, around the external compressor

    [paq.compress] and [paq.decompress] are not part of the program: they
    are parameters. What a command has read from its input file, and the
    answers to its prompts, are arguments of its model; what the command
    passes to [outfile.write] is the result. *)

Section Paq.
Variable paq_compress : bytes -> bytes.
Variable paq_decompress : bytes -> res bytes.

Definition compress_bytes_paq_xor (data : bytes) : res bytes :=
  transformed_data <- transform_with_pattern data ;;
  Ok (paq_compress transformed_data).

(** [except Exception]: the error is printed and [None] is returned. *)
Definition decompress_bytes_paq_xor (data : bytes) : option bytes :=
  match (decompressed_data <- paq_decompress data ;;
         transform_with_pattern decompressed_data) with
  | Ok transformed => Some transformed
  | Raise _ => None
  end.

(** What a command does to its output file. [WroteBytes data]: the file
    is opened in binary mode and [data] is passed to [outfile.write].
    [WroteText text]: the file is opened in text mode with the encoding
    utf-8 and the string [text] is passed to [outfile.write]. [LeftEmpty]:
    the file is opened for writing, so created or emptied, and the write
    raises. [WroteNothing]: the command returns, or an exception is
    caught, before the file is opened. *)
Inductive written : Type :=
| WroteBytes (data : bytes)
| WroteText (text : str)
| LeftEmpty
| WroteNothing.

(** [compress_text]. [text] is not the bytes of the input file: it is the
    value of the variable [text] after the loop of lines 125 to 127, the
    string that the text-mode read has built from the file (opened with
    the encoding utf-8 and [errors='ignore'], so undecodable bytes are
    dropped, and with universal newlines, so a carriage return, alone or
    before a line feed, is read as a line feed). [dictionary_lines] is
    [None] where [load_dictionary_from_file] returns [None], the
    dictionary file being unreadable, and the lines of that file
    otherwise. Line 129 encodes [text] for the digest that is printed: a
    string with no UTF-8 encoding raises there, before the encoder runs.
    Every exception is caught at line 138, before the output file is
    opened. *)
Definition compress_text (text : str) (dictionary_lines : option (list str))
    : written :=
  match dictionary_lines with
  | None => WroteNothing
  | Some lines =>
      let dictionary := load_dictionary_from_file lines max_lines_default in
      match (hashed <- Utf8.encode_strict text ;;
             encoded <- compress_text_with_dictionary text dictionary ;;
             compress_bytes_paq_xor encoded) with
      | Ok compressed => WroteBytes compressed
      | Raise _ => WroteNothing
      end
  end.

(** [compress_binary]: [data] is the bytes of the input file, which is
    read in binary mode. *)
Definition compress_binary (data : bytes) : written :=
  match compress_bytes_paq_xor data with
  | Ok compressed => WroteBytes compressed
  | Raise _ => WroteNothing
  end.

(** The string ['yes'] that the variable [choice] is compared with. *)
Definition yes : str := [121; 101; 115].

(** [decompress_binary]. [data] is the bytes of the input file, which is
    read in binary mode. [choice] is the value of the variable [choice] of
    line 161: not the answer as typed, but what [lower()] makes of it, so
    that the answers yes, Yes and YES all give the [choice] ['yes'].
    [dictionary_lines] stands for the dictionary file named at the second
    prompt, as in [compress_text]. The text is written to a file opened in
    text mode with the encoding utf-8: a string with no UTF-8 encoding
    raises at the write, after the file has been opened. *)
Definition decompress_binary (data : bytes) (choice : str)
    (dictionary_lines : option (list str)) : written :=
  match decompress_bytes_paq_xor data with
  | None => WroteNothing
  | Some decompressed =>
      if str_eq_dec choice yes then
        match dictionary_lines with
        | None => WroteNothing
        | Some lines =>
            let dictionary :=
              load_dictionary_from_file lines max_lines_default in
            match decompress_text_with_dictionary decompressed dictionary with
            | Some (Ok text) =>
                match Utf8.encode_strict text with
                | Ok _ => WroteText text
                | Raise _ => LeftEmpty
                end
            | _ => WroteNothing
            end
        end
      else WroteBytes decompressed
  end.

End Paq.

(** ** The Huffman functions

    A heap item [[weight, [symbol, code], ...]] is a weight and a list of
    pairs; symbols and weights are integers. [heapq] keeps the heap in a
    list whose arrangement is its own business: the model keeps the items
    and pops the least one under Python's [<] on lists. *)

Module Huffman.

Definition pair : Type := (Z * str)%type.
Definition entry : Type := (Z * list pair)%type.

(** [a < b] on [str]: code point by code point, a proper prefix first. *)
Fixpoint str_ltb (a b : str) : bool :=
  match a, b with
  | _, [] => false
  | [], _ :: _ => true
  | x :: a', y :: b' => if x =? y then str_ltb a' b' else x <? y
  end.

Definition str_eqb (a b : str) : bool :=
  if str_eq_dec a b then true else false.

(** [[s, c] == [s', c']] and [[s, c] < [s', c']] *)
Definition pair_eqb (p q : pair) : bool :=
  (fst p =? fst q) && str_eqb (snd p) (snd q).

Definition pair_ltb (p q : pair) : bool :=
  if fst p =? fst q then str_ltb (snd p) (snd q) else fst p <? fst q.

Fixpoint pairs_ltb (ps qs : list pair) : bool :=
  match ps, qs with
  | _, [] => false
  | [], _ :: _ => true
  | p :: ps', q :: qs' =>
      if pair_eqb p q then pairs_ltb ps' qs' else pair_ltb p q
  end.

(** [e1 < e2] on heap items: the weights, then the pairs. *)
Definition entry_ltb (e1 e2 : entry) : bool :=
  if fst e1 =? fst e2 then pairs_ltb (snd e1) (snd e2) else fst e1 <? fst e2.

(** The least item and the other items. *)
Fixpoint pop_least (heap : list entry) : option (entry * list entry) :=
  match heap with
  | [] => None
  | e :: rest =>
      match pop_least rest with
      | None => Some (e, [])
      | Some (m, rest') =>
          if entry_ltb m e then Some (m, e :: rest') else Some (e, rest)
      end
  end.

(** [heapq.heappop(heap)]: [IndexError] on the empty heap. *)
Definition heappop (heap : list entry) : res (entry * list entry) :=
  match pop_least heap with
  | Some r => Ok r
  | None => Raise IndexError
  end.

(** [heapq.heappush(heap, item)] *)
Definition heappush (heap : list entry) (item : entry) : list entry :=
  item :: heap.

(** [for pair in pairs: pair[1] = bit + pair[1]] *)
Definition prepend (bit : Z) (pairs : list pair) : list pair :=
  map (fun p => (fst p, bit :: snd p)) pairs.

(** The body of [while len(heap) > 1]. *)
Definition merge_step (heap : list entry) : res (list entry) :=
  lo_heap <- heappop heap ;;
  hi_heap <- heappop (snd lo_heap) ;;
  let lo := fst lo_heap in
  let hi := fst hi_heap in
  let heap := snd hi_heap in
  let lo_pairs := prepend 48 (snd lo) in
  let hi_pairs := prepend 49 (snd hi) in
  Ok (heappush heap (fst lo + fst hi, lo_pairs ++ hi_pairs)).

Fixpoint merge_loop (fuel : nat) (heap : list entry)
    : option (res (list entry)) :=
  if (1 <? length heap)%nat then
    match fuel with
    | O => None
    | S fuel' =>
        match merge_step heap with
        | Ok heap' => merge_loop fuel' heap'
        | Raise e => Some (Raise e)
        end
    end
  else Some (Ok heap).

(** [sorted(pairs, key=lambda p: p[1])]: a stable sort by code. *)
Fixpoint insert_by_code (p : pair) (sorted : list pair) : list pair :=
  match sorted with
  | [] => [p]
  | q :: rest =>
      if str_ltb (snd q) (snd p) then q :: insert_by_code p rest
      else p :: q :: rest
  end.

Definition sorted_by_code (pairs : list pair) : list pair :=
  fold_right insert_by_code [] pairs.

Definition build_huffman_tree (frequencies : PyDict.dict Z Z)
    : option (res (list pair)) :=
  let heap :=
    map (fun sw => (snd sw, [(fst sw, [])])) (PyDict.items frequencies) in
  match merge_loop (length heap) heap with
  | None => None
  | Some (Raise e) => Some (Raise e)
  | Some (Ok heap) =>
      match heappop heap with
      | Ok (top, _) => Some (Ok (sorted_by_code (snd top)))
      | Raise e => Some (Raise e)
      end
  end.

(** [{symbol: code for symbol, code in tree}] *)
Definition create_huffman_codes (tree : list pair) : PyDict.dict Z str :=
  fold_left (fun codes p => PyDict.set Z.eq_dec codes (fst p) (snd p)) tree [].

(** [c1] is the start of [c2]. *)
Definition prefix (c1 c2 : str) : Prop := exists t, c2 = c1 ++ t.

(** All the pairs of the heap. *)
Definition all_pairs (heap : list entry) : list pair :=
  flat_map snd heap.

(** No code of the pairs starts another symbol's code. *)
Definition prefix_free (pairs : list pair) : Prop :=
  forall p q, In p pairs -> In q pairs -> fst p <> fst q ->
              ~ prefix (snd p) (snd q).

(** The heap holds the symbols of [keys], and inside an item no code
    starts another symbol's code. *)
Definition heap_ok (keys : list Z) (heap : list entry) : Prop :=
  Permutation (map fst (all_pairs heap)) keys /\
  Forall (fun e => prefix_free (snd e)) heap.

End Huffman.

(** The text that one complete record stands for, read off its bytes
    without running the decoder: for a tag 1 the word that [reverse_dict]
    has for the id of the three bytes, or the empty string where it has
    none (line 80); for a tag 0 or 2 the bytes after the length byte,
    decoded (lines 88 and 96). *)
Definition record_text (reverse_dict : id_dict) (rec : bytes) : str :=
  match rec with
  | [] => []
  | tag :: body =>
      if tag =? 1 then
        match body with
        | [b0; b1; b2] =>
            PyDict.get_default Z.eq_dec reverse_dict (id_of_bytes b0 b1 b2) []
        | _ => []
        end
      else if (tag =? 0) || (tag =? 2) then
        match body with
        | _ :: payload => Utf8.decode_ignore payload
        | [] => []
        end
      else []
  end.

(** * Properties *)

Unset Implicit Arguments.

(** ** The tokeniser *)

Section Tokeniser.
Import PyStr.

Lemma span_spec (p : Z -> bool) (s m r : str) :
  span p s = (m, r) -> s = m ++ r /\ forallb p m = true.
Proof.
  revert m r; induction s as [|c s IH]; simpl; intros m r E.
  - inversion E; auto.
  - destruct (p c) eqn:Hc.
    + destruct (span p s) as [m' r'] eqn:E'.
      inversion E; subst; clear E.
      destruct (IH _ _ eq_refl) as [-> Hall].
      simpl; rewrite Hc; auto.
    + inversion E; auto.
Qed.

Lemma span_head (p : Z -> bool) (c : Z) (s : str) :
  p c = true -> exists m r, span p (c :: s) = (c :: m, r).
Proof.
  intros Hc; simpl; rewrite Hc.
  destruct (span p s) as [m r]; eauto.
Qed.

Lemma span_nil (p : Z -> bool) (c : Z) (s : str) :
  p c = false -> span p (c :: s) = ([], c :: s).
Proof. intros Hc; simpl; now rewrite Hc. Qed.

Lemma match_at_cons (c : Z) (s : str) :
  exists m r, match_at (c :: s) = Some (m, r) /\ c :: s = m ++ r /\ run m.
Proof.
  unfold match_at.
  destruct (isspace_char c) eqn:Hc.
  - rewrite span_nil by (unfold nonspace_char; now rewrite Hc).
    destruct (span_head isspace_char c s Hc) as (m & r & E).
    rewrite E; exists (c :: m), r.
    destruct (span_spec _ _ _ _ E) as [Hs Hall].
    split; [reflexivity|]. split; [exact Hs|]. split; [discriminate | now left].
  - assert (Hn : nonspace_char c = true) by (unfold nonspace_char; now rewrite Hc).
    destruct (span_head nonspace_char c s Hn) as (m & r & E).
    rewrite E; exists (c :: m), r.
    destruct (span_spec _ _ _ _ E) as [Hs Hall].
    split; [reflexivity|]. split; [exact Hs|]. split; [discriminate | now right].
Qed.

Lemma findall_from_spec (fuel : nat) :
  forall text, (length text <= fuel)%nat ->
    concat (findall_from fuel text) = text /\
    Forall run (findall_from fuel text).
Proof.
  induction fuel as [|fuel IH]; intros [|c s] Hlen; simpl in *;
    try (split; [reflexivity | constructor]); try lia.
  destruct (match_at_cons c s) as (m & r & E & Hs & Hrun).
  rewrite E.
  assert (Hr : (length r <= fuel)%nat).
  { apply (f_equal (@length Z)) in Hs. rewrite length_app in Hs.
    destruct Hrun as [Hne _]. destruct m; [congruence|]. simpl in Hs. lia. }
  destruct (IH r Hr) as [Hc Hf].
  split.
  - simpl. rewrite Hc. auto.
  - constructor; auto.
Qed.

Lemma findall_concat (text : str) : concat (findall text) = text.
Proof. apply findall_from_spec; auto. Qed.

Lemma findall_runs (text : str) : Forall run (findall text).
Proof. apply findall_from_spec; auto. Qed.

Lemma span_rest (p : Z -> bool) (s m r : str) :
  span p s = (m, r) ->
  match r with
  | c :: _ => p c = false
  | [] => True
  end.
Proof.
  revert m r; induction s as [|c s IH]; simpl; intros m r E.
  - now inversion E.
  - destruct (p c) eqn:Hc.
    + destruct (span p s) as [m' r'] eqn:E'.
      inversion E; subst; clear E. now apply (IH m').
    + now inversion E.
Qed.

(** The class of a token is the class of its first character. *)
Lemma run_isspace_head (c : Z) (tok : str) :
  run (c :: tok) -> isspace (c :: tok) = isspace_char c.
Proof.
  intros [_ [Hs | Hn]].
  - cbn [isspace]. rewrite Hs. cbn [forallb] in Hs.
    apply andb_true_iff in Hs. now destruct Hs as [-> _].
  - cbn [forallb] in Hn. apply andb_true_iff in Hn. destruct Hn as [Hc Hn].
    unfold nonspace_char in Hc. apply negb_true_iff in Hc.
    cbn [isspace forallb]. now rewrite Hc.
Qed.

(** A match ends where the text ends or where the class changes. *)
Lemma match_at_rest (text m r : str) :
  match_at text = Some (m, r) ->
  match r with
  | c :: _ => isspace m = negb (isspace_char c)
  | [] => True
  end.
Proof.
  unfold match_at.
  destruct (span nonspace_char text) as [[|c1 m1] r1] eqn:E1.
  - destruct (span isspace_char text) as [[|c2 m2] r2] eqn:E2; [discriminate|].
    intros [= <- <-].
    pose proof (span_rest _ _ _ _ E2) as Hr.
    destruct (span_spec _ _ _ _ E2) as [_ Hall].
    destruct r2 as [|c r2]; [exact I|].
    rewrite Hr. cbn [isspace negb]. exact Hall.
  - intros [= <- <-].
    pose proof (span_rest _ _ _ _ E1) as Hr.
    destruct (span_spec _ _ _ _ E1) as [_ Hall].
    destruct r1 as [|c r1]; [exact I|].
    unfold nonspace_char in Hr. apply negb_false_iff in Hr. rewrite Hr.
    cbn [negb]. cbn [forallb] in Hall. apply andb_true_iff in Hall.
    destruct Hall as [Hc _]. unfold nonspace_char in Hc.
    apply negb_true_iff in Hc. cbn [isspace forallb]. now rewrite Hc.
Qed.

(** The first token starts with the first character of the text. *)
Lemma findall_from_head (fuel : nat) (c : Z) (s : str) :
  exists tok toks, findall_from (S fuel) (c :: s) = (c :: tok) :: toks.
Proof.
  cbn [findall_from].
  destruct (match_at_cons c s) as (m & r & E & Hs & Hrun).
  rewrite E. destruct m as [|c' m]; [destruct Hrun; congruence|].
  injection Hs as <- _. eauto.
Qed.

Lemma findall_from_alternating (fuel : nat) :
  forall text, (length text <= fuel)%nat -> alternating (findall_from fuel text).
Proof.
  induction fuel as [|fuel IH]; intros [|c s] Hlen; try exact I.
  cbn [findall_from].
  destruct (match_at_cons c s) as (m & r & E & Hs & Hrun).
  rewrite E.
  assert (Hr : (length r <= fuel)%nat).
  { apply (f_equal (@length Z)) in Hs. rewrite length_app in Hs.
    destruct Hrun as [Hne _]. destruct m; [congruence|].
    simpl in Hs, Hlen. lia. }
  pose proof (IH r Hr) as Halt.
  pose proof (match_at_rest _ _ _ E) as Hrest.
  destruct r as [|c' r']; [destruct fuel; exact I|].
  destruct fuel as [|fuel]; [simpl in Hr; lia|].
  destruct (findall_from_head fuel c' r') as (tok & toks & Etok).
  pose proof (findall_from_spec (S fuel) (c' :: r') Hr) as [_ Hruns].
  rewrite Etok in *. cbn [alternating]. split; [|exact Halt].
  inversion Hruns as [|? ? Hrun' _]; subst.
  now rewrite (run_isspace_head _ _ Hrun').
Qed.

(** The runs are maximal. *)
Lemma findall_alternating (text : str) : alternating (findall text).
Proof. apply findall_from_alternating; auto. Qed.

(** A token that is not [isspace] has no whitespace character at all. *)
Lemma run_not_isspace (tok : str) :
  run tok -> isspace tok = false -> forallb nonspace_char tok = true.
Proof.
  intros [Hne [Hs | Hn]] H; auto.
  destruct tok; [congruence|]. unfold isspace in H. congruence.
Qed.

(** C7: the tokens of [re.findall(r'\S+|\s+', text)] are a finite list of
    non-empty strings, their concatenation in order is the input, each
    token is entirely whitespace or entirely non-whitespace, and the
    empty input has no token. *)
Theorem findall_partitions_text :
  forall text : str,
    Forall (fun tok => tok <> []) (findall text) /\
    concat (findall text) = text /\
    Forall (fun tok => forallb isspace_char tok = true \/
                       forallb nonspace_char tok = true) (findall text) /\
    findall [] = [].
Proof.
  intros text. pose proof (findall_runs text) as Hr.
  repeat split.
  - eapply Forall_impl; [|exact Hr]. intros tok [H _]; exact H.
  - apply findall_concat.
  - eapply Forall_impl; [|exact Hr]. intros tok [_ H]; exact H.
Qed.
End Tokeniser.

(** ** Bytes and bit operations *)

Section Bits.

Lemma is_byte_iff (b : Z) : is_byte b = true <-> 0 <= b < 256.
Proof. unfold is_byte. rewrite andb_true_iff. lia. Qed.

Lemma land_255_byte (x : Z) : is_byte (Z.land x 0xFF) = true.
Proof.
  apply is_byte_iff. change 0xFF with (Z.ones 8).
  rewrite Z.land_ones by lia. apply Z.mod_pos_bound. reflexivity.
Qed.

Lemma lxor_255_byte (b : Z) : is_byte b = true -> is_byte (Z.lxor b 0xFF) = true.
Proof.
  rewrite !is_byte_iff. intros Hb.
  assert (Hnn : 0 <= Z.lxor b 0xFF) by (apply Z.lxor_nonneg; lia).
  split; [exact Hnn|].
  destruct (Z.eq_dec (Z.lxor b 0xFF) 0) as [E|NE]; [lia|].
  change 256 with (2 ^ 8). apply Z.log2_lt_pow2; [lia|].
  pose proof (Z.log2_lxor b 0xFF ltac:(lia) ltac:(lia)) as Hl.
  assert (Z.log2 b <= 7).
  { destruct (Z.eq_dec b 0) as [->|]; [simpl; lia|].
    assert (Z.log2 b < 8) by (apply Z.log2_lt_pow2; simpl; lia). lia. }
  change (Z.log2 0xFF) with 7 in Hl. lia.
Qed.

Lemma lxor_255_twice (b : Z) : Z.lxor (Z.lxor b 0xFF) 0xFF = b.
Proof. now rewrite Z.lxor_assoc, Z.lxor_nilpotent, Z.lxor_0_r. Qed.

Lemma testbit_255 (n : Z) : 0 <= n -> Z.testbit 0xFF n = (n <? 8).
Proof. intros Hn. change 0xFF with (Z.ones 8). apply Z.testbit_ones_nonneg; lia. Qed.

(** The three bytes of an id below [2^24] give the id back. *)
Lemma pack_unpack_24 (v : Z) :
  0 <= v < 2 ^ 24 ->
  Z.lor (Z.lor (Z.shiftl (Z.land (Z.shiftr v 16) 0xFF) 16)
               (Z.shiftl (Z.land (Z.shiftr v 8) 0xFF) 8))
        (Z.land v 0xFF) = v.
Proof.
  intros Hv. apply Z.bits_inj'. intros n Hn.
  rewrite !Z.lor_spec.
  assert (Hhigh : 24 <= n -> Z.testbit v n = false).
  { intros H. destruct (Z.eq_dec v 0) as [->|NE]; [apply Z.bits_0|].
    apply Z.bits_above_log2; [lia|].
    assert (Z.log2 v < 24) by (apply Z.log2_lt_pow2; lia). lia. }
  destruct (Z_lt_le_dec n 8) as [H8|H8].
  - rewrite !Z.shiftl_spec_low by lia.
    rewrite Z.land_spec, testbit_255 by lia.
    destruct (Z.ltb_spec n 8); [|lia]. now rewrite andb_true_r.
  - destruct (Z_lt_le_dec n 16) as [H16|H16].
    + rewrite Z.shiftl_spec_low by lia.
      rewrite Z.shiftl_spec by lia.
      rewrite !Z.land_spec, Z.shiftr_spec, !testbit_255 by lia.
      replace (n - 8 + 8) with n by lia.
      destruct (Z.ltb_spec (n - 8) 8); [|lia].
      destruct (Z.ltb_spec n 8); [lia|].
      now rewrite andb_true_r, andb_false_r, orb_false_r.
    + rewrite !Z.shiftl_spec by lia.
      rewrite !Z.land_spec, !Z.shiftr_spec, !testbit_255 by lia.
      replace (n - 16 + 16) with n by lia.
      replace (n - 8 + 8) with n by lia.
      destruct (Z.ltb_spec (n - 8) 8); [lia|].
      destruct (Z.ltb_spec n 8); [lia|].
      rewrite !andb_false_r, !orb_false_r.
      destruct (Z.ltb_spec (n - 16) 8).
      * now rewrite andb_true_r.
      * rewrite andb_false_r. symmetry. apply Hhigh. lia.
Qed.

Lemma int_to_3bytes_ok (v : Z) :
  int_to_3bytes v =
    Ok [Z.land (Z.shiftr v 16) 0xFF; Z.land (Z.shiftr v 8) 0xFF; Z.land v 0xFF].
Proof.
  unfold int_to_3bytes, bytes_of. simpl forallb.
  now rewrite !land_255_byte.
Qed.

Lemma bytes_of_ok (l : list Z) : forallb is_byte l = true -> bytes_of l = Ok l.
Proof. unfold bytes_of. now intros ->. Qed.

Lemma transform_bytes (data : bytes) :
  forallb is_byte data = true ->
  forallb is_byte (map (fun b => Z.lxor b 0xFF) data) = true.
Proof.
  induction data as [|b data IH]; simpl; auto.
  rewrite andb_true_iff. intros [Hb Hd].
  now rewrite lxor_255_byte, IH.
Qed.

(** C8: [transform_with_pattern] (XOR of every byte with 0xFF) is an
    involution: on every byte sequence it succeeds, and applying it to
    its own result gives the original sequence back. *)
Theorem transform_with_pattern_involution :
  forall data : bytes,
    forallb is_byte data = true ->
    exists data', transform_with_pattern data = Ok data' /\
                  transform_with_pattern data' = Ok data.
Proof.
  intros data Hd. exists (map (fun b => Z.lxor b 0xFF) data).
  unfold transform_with_pattern.
  rewrite (bytes_of_ok _ (transform_bytes _ Hd)). split; [reflexivity|].
  rewrite map_map.
  rewrite (map_ext _ (fun b => b)) by (intros; apply lxor_255_twice).
  rewrite map_id. now apply bytes_of_ok.
Qed.

Lemma transform_with_pattern_involution_witness :
  forallb is_byte [0; 65; 255] = true /\
  exists data', transform_with_pattern [0; 65; 255] = Ok data' /\
                transform_with_pattern data' = Ok [0; 65; 255].
Proof.
  split; [reflexivity|].
  apply (transform_with_pattern_involution [0; 65; 255]). reflexivity.
Defined.

End Bits.

(** ** The decoder's loop *)

Section DecoderLoop.
Variable rd : id_dict.

Lemma getitem_app_shift (pre data : bytes) (i : nat) :
  getitem (pre ++ data) (length pre + i) = getitem data i.
Proof.
  unfold getitem. rewrite nth_error_app2 by lia.
  now replace (length pre + i - length pre)%nat with i by lia.
Qed.

Lemma slice_app_shift (pre data : bytes) (i j : nat) :
  slice (pre ++ data) (length pre + i) (length pre + j) = slice data i j.
Proof.
  unfold slice. rewrite skipn_app, skipn_all2 by lia. simpl.
  replace (length pre + i - length pre)%nat with i by lia.
  now replace (length pre + j - (length pre + i))%nat with (j - i)%nat by lia.
Qed.

Lemma slice_length (data : bytes) (i n : nat) :
  (i + n <= length data)%nat -> length (slice data i (i + n)) = n.
Proof.
  intros H. unfold slice. rewrite length_firstn, length_skipn. lia.
Qed.

Lemma decode_literal_relocate (pre data : bytes) (i : nat) (acc r : list str) :
  decode_literal (pre ++ data) (length pre + i) (acc ++ r) =
  match decode_literal data i r with
  | Ok c => Ok (relocate (length pre) acc c)
  | Raise e => Raise e
  end.
Proof.
  unfold decode_literal. rewrite length_app.
  replace (length pre + length data <=? length pre + i)%nat
    with (length data <=? i)%nat
    by (destruct (Nat.leb_spec (length data) i),
                 (Nat.leb_spec (length pre + length data) (length pre + i));
        auto; lia).
  destruct (length data <=? i)%nat; [reflexivity|].
  rewrite getitem_app_shift.
  destruct (getitem data i) as [len|e]; simpl; [|reflexivity].
  replace (length pre + i + 1)%nat with (length pre + (i + 1))%nat by lia.
  replace (length pre + (i + 1) + Z.to_nat len)%nat
    with (length pre + (i + 1 + Z.to_nat len))%nat by lia.
  now rewrite slice_app_shift, app_assoc.
Qed.

Lemma decode_step_relocate (pre data : bytes) (i : nat) (acc r : list str) :
  decode_step (pre ++ data) rd ((length pre + i)%nat, acc ++ r) =
  match decode_step data rd (i, r) with
  | Ok c => Ok (relocate (length pre) acc c)
  | Raise e => Raise e
  end.
Proof.
  unfold decode_step. rewrite getitem_app_shift.
  destruct (getitem data i) as [flag|e]; simpl; [|reflexivity].
  replace (length pre + i + 1)%nat with (length pre + (i + 1))%nat by lia.
  destruct (flag =? 1).
  - rewrite length_app.
    replace (length pre + length data <? length pre + (i + 1) + 3)%nat
      with (length data <? i + 1 + 3)%nat
      by (destruct (Nat.ltb_spec (length data) (i + 1 + 3)),
                   (Nat.ltb_spec (length pre + length data)
                                 (length pre + (i + 1) + 3));
          auto; lia).
    destruct (length data <? i + 1 + 3)%nat; [reflexivity|].
    replace (length pre + (i + 1) + 3)%nat
      with (length pre + (i + 1 + 3))%nat by lia.
    rewrite slice_app_shift.
    destruct (bytes3_to_int (slice data (i + 1) (i + 1 + 3))); simpl;
      [|reflexivity].
    now rewrite app_assoc.
  - destruct (flag =? 0); [apply decode_literal_relocate|].
    destruct (flag =? 2); [apply decode_literal_relocate|].
    reflexivity.
Qed.

Lemma decode_loop_relocate (fuel : nat) (pre data : bytes) (acc : list str) :
  forall (i : nat) (r : list str),
    decode_loop fuel (pre ++ data) rd ((length pre + i)%nat, acc ++ r) =
    match decode_loop fuel data rd (i, r) with
    | Some (Ok out) => Some (Ok (acc ++ out))
    | Some (Raise e) => Some (Raise e)
    | None => None
    end.
Proof.
  induction fuel as [|fuel IH]; intros i r; cbn [decode_loop fst snd];
    rewrite length_app;
    replace (length pre + i <? length pre + length data)%nat
      with (i <? length data)%nat
      by (destruct (Nat.ltb_spec i (length data)),
                   (Nat.ltb_spec (length pre + i) (length pre + length data));
          auto; lia);
    destruct (i <? length data)%nat; try reflexivity.
  rewrite decode_step_relocate.
  destruct (decode_step data rd (i, r)) as [[[i' r'] | [i' r']] | e];
    cbn [relocate snd]; try reflexivity.
  apply IH.
Qed.

(** The cursor moves forward in every run of the body that continues. *)
Lemma decode_step_progress (data : bytes) (i i' : nat) (r r' : list str) :
  decode_step data rd (i, r) = Ok (Continue (i', r')) -> (i < i')%nat.
Proof.
  unfold decode_step, decode_literal.
  destruct (getitem data i) as [flag|e]; simpl; [|discriminate].
  destruct (flag =? 1).
  - destruct (length data <? i + 1 + 3)%nat; [discriminate|].
    destruct (bytes3_to_int _); simpl; [|discriminate].
    intros E; inversion E; lia.
  - destruct (flag =? 0), (flag =? 2);
      try (destruct (length data <=? i + 1)%nat; [discriminate|];
           destruct (getitem data (i + 1)); simpl; [|discriminate]);
      intros E; inversion E; lia.
Qed.

Lemma getitem_in_range (data : bytes) (i : nat) :
  (i < length data)%nat -> exists b, getitem data i = Ok b.
Proof.
  intros H. unfold getitem.
  destruct (nth_error data i) eqn:E; eauto.
  apply nth_error_None in E. lia.
Qed.

Lemma bytes3_to_int_slice (data : bytes) (i : nat) :
  (i + 3 <= length data)%nat ->
  exists code, bytes3_to_int (slice data i (i + 3)) = Ok code.
Proof.
  intros H. pose proof (slice_length data i 3 H) as Hl.
  destruct (slice data i (i + 3)) as [|b0 [|b1 [|b2 l]]]; try discriminate.
  unfold bytes3_to_int; simpl. eauto.
Qed.

(** Inside the stream the body raises nothing. *)
Lemma decode_step_no_raise (data : bytes) (i : nat) (r : list str) :
  (i < length data)%nat -> exists c, decode_step data rd (i, r) = Ok c.
Proof.
  intros Hi. unfold decode_step, decode_literal.
  destruct (getitem_in_range data i Hi) as [flag ->]; simpl.
  destruct (flag =? 1).
  - destruct (Nat.ltb_spec (length data) (i + 1 + 3)); [eauto|].
    destruct (bytes3_to_int_slice data (i + 1)) as [code ->]; [lia|].
    simpl; eauto.
  - destruct (flag =? 0), (flag =? 2); eauto;
      (destruct (Nat.leb_spec (length data) (i + 1)); [eauto|];
       destruct (getitem_in_range data (i + 1)) as [len ->]; [lia|];
       simpl; eauto).
Qed.

Lemma decode_loop_S (data : bytes) (fuel : nat) (st : dstate) :
  decode_loop (S fuel) data rd st =
    if (fst st <? length data)%nat then
      match decode_step data rd st with
      | Raise e => Some (Raise e)
      | Ok (Break st') => Some (Ok (snd st'))
      | Ok (Continue st') => decode_loop fuel data rd st'
      end
    else Some (Ok (snd st)).
Proof. reflexivity. Qed.

Lemma decode_loop_done (data : bytes) (fuel i : nat) (r : list str) :
  (length data <= i)%nat -> decode_loop fuel data rd (i, r) = Some (Ok r).
Proof.
  intros H. destruct fuel; cbn [decode_loop fst snd];
    destruct (Nat.ltb_spec i (length data)); auto; lia.
Qed.

Lemma decode_loop_total (data : bytes) (fuel : nat) :
  forall (i : nat) (r : list str),
    (length data - i <= fuel)%nat ->
    exists out, decode_loop fuel data rd (i, r) = Some (Ok out).
Proof.
  induction fuel as [|fuel IH]; intros i r Hf; cbn [decode_loop fst snd];
    destruct (Nat.ltb_spec i (length data)) as [Hi|Hi]; eauto; try lia.
  destruct (decode_step_no_raise data i r Hi) as [[[i' r'] | [i' r']] E];
    rewrite E; eauto.
  apply IH. apply decode_step_progress in E. lia.
Qed.

Lemma decode_loop_more_fuel (data : bytes) (fuel : nat) :
  forall (st : dstate) (x : res (list str)),
    decode_loop fuel data rd st = Some x ->
    decode_loop (S fuel) data rd st = Some x.
Proof.
  induction fuel as [|fuel IH]; intros st x.
  - cbn [decode_loop]. destruct (fst st <? length data)%nat; [discriminate|auto].
  - intros H. change (decode_loop (S (S fuel)) data rd st) with
      (if (fst st <? length data)%nat then
         match decode_step data rd st with
         | Raise e => Some (Raise e)
         | Ok (Break st') => Some (Ok (snd st'))
         | Ok (Continue st') => decode_loop (S fuel) data rd st'
         end
       else Some (Ok (snd st))).
    cbn [decode_loop] in H. destruct (fst st <? length data)%nat; [|exact H].
    destruct (decode_step data rd st) as [[st'|st']|e]; auto.
Qed.

Lemma decode_loop_fuel_le (data : bytes) (f f' : nat) (st : dstate)
    (x : res (list str)) :
  (f <= f')%nat ->
  decode_loop f data rd st = Some x -> decode_loop f' data rd st = Some x.
Proof.
  induction 1 as [|m Hle IH]; auto. intros E. apply decode_loop_more_fuel; auto.
Qed.

(** With enough fuel the result does not depend on the fuel. *)
Lemma decode_loop_enough (data : bytes) (f : nat) (i : nat) (r : list str) :
  (length data - i <= f)%nat ->
  decode_loop f data rd (i, r) =
  decode_loop (length data - i) data rd (i, r).
Proof.
  intros Hf.
  destruct (decode_loop_total data (length data - i) i r (le_n _)) as [out E].
  rewrite E. eapply decode_loop_fuel_le; eauto.
Qed.

End DecoderLoop.

(** ** Decoding a stream record by record *)

Section Decompress.
Variable dictionary : word_dict.
Let rd := reverse_of dictionary.

Lemma decompress_decoded (data : bytes) :
  decompress_text_with_dictionary data dictionary =
    Some (Ok (decoded dictionary data)).
Proof.
  unfold decoded, decompress_text_with_dictionary.
  destruct (decode_loop_total (reverse_of dictionary) data (length data) 0 [])
    as [out ->]; [lia|]. reflexivity.
Qed.

Lemma decoded_loop (data : bytes) (out : list str) :
  decode_loop (length data) data rd (0%nat, []) = Some (Ok out) ->
  decoded dictionary data = join out.
Proof.
  intros E. unfold decoded, decompress_text_with_dictionary.
  fold rd. now rewrite E.
Qed.

Lemma decoded_nil : decoded dictionary [] = [].
Proof. reflexivity. Qed.

(** A first run of the body that continues after [rec] leaves the rest
    of the stream to be decoded on its own. *)
Lemma decoded_first_step (rec rest : bytes) (ws : list str) :
  decode_step (rec ++ rest) rd (0%nat, []) = Ok (Continue (length rec, ws)) ->
  decoded dictionary (rec ++ rest) = join ws ++ decoded dictionary rest.
Proof.
  intros E.
  pose proof (decode_step_progress _ _ _ _ _ _ E) as Hrec.
  destruct (decode_loop_total rd rest (length rest) 0 []) as [out Eout]; [lia|].
  rewrite (decoded_loop rest out Eout).
  replace (join ws ++ join out) with (join (ws ++ out))
    by (unfold join; apply concat_app).
  apply decoded_loop.
  assert (Hf : exists f, length (rec ++ rest) = S f /\ (length rest <= f)%nat).
  { exists (pred (length rec) + length rest)%nat. rewrite length_app. lia. }
  destruct Hf as (f & Ef & Hf).
  rewrite Ef. cbn [decode_loop fst snd]. rewrite Ef.
  change (0 <? S f)%nat with true. cbn iota.
  rewrite E.
  replace (length rec) with (length rec + 0)%nat by lia.
  rewrite <- (app_nil_r ws) at 1.
  rewrite decode_loop_relocate.
  rewrite (decode_loop_enough rd rest f 0 []) by lia.
  now rewrite Nat.sub_0_r, Eout.
Qed.

Lemma decoded_first_break (data : bytes) (st : dstate) :
  decode_step data rd (0%nat, []) = Ok (Break st) ->
  decoded dictionary data = join (snd st).
Proof.
  intros E. apply decoded_loop.
  destruct data as [|b data]; [discriminate|].
  cbn [length decode_loop fst snd].
  change (0 <? S (length data))%nat with true. cbn iota.
  now rewrite E.
Qed.

Lemma step_dict_ref (b0 b1 b2 : Z) (rest : bytes) :
  decode_step ([1; b0; b1; b2] ++ rest) rd (0%nat, []) =
    Ok (Continue (4%nat,
          [PyDict.get_default Z.eq_dec rd (id_of_bytes b0 b1 b2) []])).
Proof. reflexivity. Qed.

Lemma step_literal (tag len : Z) (payload rest : bytes) :
  tag = 0 \/ tag = 2 ->
  (length payload <= Z.to_nat len)%nat ->
  (rest = [] \/ length payload = Z.to_nat len) ->
  decode_step ((tag :: len :: payload) ++ rest) rd (0%nat, []) =
    Ok (Continue ((2 + Z.to_nat len)%nat, [Utf8.decode_ignore payload])).
Proof.
  intros Ht Hl Hr.
  assert (Hs : firstn (Z.to_nat len) (payload ++ rest) = payload).
  { destruct Hr as [-> | Hr].
    - rewrite app_nil_r. now apply firstn_all2.
    - rewrite <- Hr, firstn_app, Nat.sub_diag, firstn_all. simpl.
      now rewrite app_nil_r. }
  unfold decode_step, decode_literal, slice.
  cbn [app getitem nth_error bind Nat.add length Nat.leb skipn].
  replace (S (S (Z.to_nat len)) - 2)%nat with (Z.to_nat len) by lia.
  rewrite Hs.
  destruct Ht as [-> | ->]; reflexivity.
Qed.

Lemma step_unknown_tag (tag : Z) (rest : bytes) :
  tag <> 0 -> tag <> 1 -> tag <> 2 ->
  decode_step (tag :: rest) rd (0%nat, []) = Ok (Continue (1%nat, [])).
Proof.
  intros H0 H1 H2. unfold decode_step. cbn [getitem nth_error bind].
  destruct (Z.eqb_spec tag 1); [lia|].
  destruct (Z.eqb_spec tag 0); [lia|].
  destruct (Z.eqb_spec tag 2); [lia|]. reflexivity.
Qed.

Lemma decoded_dict_ref (b0 b1 b2 : Z) (rest : bytes) :
  decoded dictionary ([1; b0; b1; b2] ++ rest) =
    PyDict.get_default Z.eq_dec rd (id_of_bytes b0 b1 b2) []
    ++ decoded dictionary rest.
Proof.
  rewrite (decoded_first_step [1; b0; b1; b2] rest _ (step_dict_ref b0 b1 b2 rest)).
  unfold join; simpl. now rewrite app_nil_r.
Qed.

Lemma decoded_literal (tag len : Z) (payload rest : bytes) :
  tag = 0 \/ tag = 2 ->
  Z.to_nat len = length payload ->
  decoded dictionary ((tag :: len :: payload) ++ rest) =
    Utf8.decode_ignore payload ++ decoded dictionary rest.
Proof.
  intros Ht Hl.
  rewrite (decoded_first_step (tag :: len :: payload) rest
             [Utf8.decode_ignore payload]).
  - unfold join; simpl. now rewrite app_nil_r.
  - rewrite step_literal by (auto; lia). simpl length. now rewrite Hl.
Qed.

Lemma decoded_unknown_tag (tag : Z) (rest : bytes) :
  tag <> 0 -> tag <> 1 -> tag <> 2 ->
  decoded dictionary (tag :: rest) = decoded dictionary rest.
Proof.
  intros H0 H1 H2.
  apply (decoded_first_step [tag] rest []). now apply step_unknown_tag.
Qed.

Lemma decoded_record_app (rec rest : bytes) :
  record_bytes rec ->
  decoded dictionary (rec ++ rest) =
    decoded dictionary rec ++ decoded dictionary rest.
Proof.
  intros [b0 b1 b2 | tag len payload Ht Hl].
  - rewrite decoded_dict_ref.
    change [1; b0; b1; b2] with ([1; b0; b1; b2] ++ []).
    now rewrite decoded_dict_ref, decoded_nil, app_nil_r.
  - rewrite decoded_literal by auto.
    rewrite <- (app_nil_r (tag :: len :: payload)) at 1.
    now rewrite decoded_literal, decoded_nil, app_nil_r by auto.
Qed.

Lemma decoded_records (recs : list bytes) (rest : bytes) :
  Forall record_bytes recs ->
  decoded dictionary (concat recs ++ rest) =
    concat (map (decoded dictionary) recs) ++ decoded dictionary rest.
Proof.
  induction 1 as [|rec recs Hrec _ IH]; simpl; [reflexivity|].
  now rewrite <- !app_assoc, decoded_record_app, IH.
Qed.

Lemma decoded_truncated (tail : bytes) (s : str) :
  truncated_record tail s -> decoded dictionary tail = s.
Proof.
  intros [ids Hids | tag Ht | tag len payload Ht Hl].
  - rewrite (decoded_first_break (1 :: ids) (1%nat, [])); [reflexivity|].
    unfold decode_step. cbn [getitem nth_error bind Z.eqb Pos.eqb Nat.add length].
    destruct (Nat.ltb_spec (S (length ids)) 4); [reflexivity|lia].
  - rewrite (decoded_first_break [tag] (1%nat, [])); [reflexivity|].
    destruct Ht as [-> | ->]; reflexivity.
  - pose proof (step_literal tag len payload [] Ht) as E.
    rewrite app_nil_r in E.
    assert (Hstep : decode_step (tag :: len :: payload) rd (0%nat, []) =
              Ok (Continue ((2 + Z.to_nat len)%nat, [Utf8.decode_ignore payload])))
      by (apply E; auto; lia).
    replace (Utf8.decode_ignore payload)
      with (join [Utf8.decode_ignore payload])
      by (unfold join; simpl; apply app_nil_r).
    apply decoded_loop.
    simpl length. rewrite decode_loop_S. cbn [fst snd].
    change (0 <? length (tag :: len :: payload))%nat with true. cbn iota.
    rewrite Hstep. apply decode_loop_done. simpl length. lia.
Qed.

End Decompress.

(** ** UTF-8 round trip *)

Section Utf8Facts.
Import Utf8.

Ltac zcmp :=
  repeat match goal with
    | |- context [?x <? ?y] => destruct (Z.ltb_spec x y); try lia
    | |- context [?x <=? ?y] => destruct (Z.leb_spec x y); try lia
    | |- context [?x =? ?y] => destruct (Z.eqb_spec x y); try lia
    end.

Lemma div_4096 (c : Z) : c / 4096 = c / 64 / 64.
Proof. rewrite Z.div_div by lia. reflexivity. Qed.

Lemma div_262144 (c : Z) : c / 262144 = c / 64 / 64 / 64.
Proof. rewrite !Z.div_div by lia. reflexivity. Qed.

Lemma decode_1 (b0 : Z) (rest : bytes) :
  b0 < 0x80 -> decode_ignore (b0 :: rest) = b0 :: decode_ignore rest.
Proof. intros H. cbn [decode_ignore]. zcmp. reflexivity. Qed.

Lemma decode_2 (b0 b1 : Z) (rest : bytes) :
  0xC2 <= b0 < 0xE0 -> 0x80 <= b1 <= 0xBF ->
  decode_ignore (b0 :: b1 :: rest) =
    ((b0 - 0xC0) * 64 + (b1 - 0x80)) :: decode_ignore rest.
Proof.
  intros H0 H1. cbn [decode_ignore]. unfold is_cont. zcmp. reflexivity.
Qed.

Lemma decode_3 (b0 b1 b2 : Z) (rest : bytes) :
  0xE0 <= b0 < 0xF0 -> 0x80 <= b1 <= 0xBF -> 0x80 <= b2 <= 0xBF ->
  (b0 = 0xE0 -> 0xA0 <= b1) -> (b0 = 0xED -> b1 < 0xA0) ->
  decode_ignore (b0 :: b1 :: b2 :: rest) =
    ((b0 - 0xE0) * 4096 + (b1 - 0x80) * 64 + (b2 - 0x80))
      :: decode_ignore rest.
Proof.
  intros H0 H1 H2 Hlow Hsur. cbn [decode_ignore].
  unfold second_of_3, is_cont. zcmp; reflexivity.
Qed.

Lemma decode_4 (b0 b1 b2 b3 : Z) (rest : bytes) :
  0xF0 <= b0 < 0xF5 ->
  0x80 <= b1 <= 0xBF -> 0x80 <= b2 <= 0xBF -> 0x80 <= b3 <= 0xBF ->
  (b0 = 0xF0 -> 0x90 <= b1) -> (b0 = 0xF4 -> b1 < 0x90) ->
  decode_ignore (b0 :: b1 :: b2 :: b3 :: rest) =
    ((b0 - 0xF0) * 262144 + (b1 - 0x80) * 4096 + (b2 - 0x80) * 64
     + (b3 - 0x80)) :: decode_ignore rest.
Proof.
  intros H0 H1 H2 H3 Hlow Hmax. cbn [decode_ignore].
  unfold second_of_4, is_cont. zcmp; reflexivity.
Qed.

(** Decoding the bytes of one code point gives the code point. *)
Lemma decode_encode_char (c : Z) (bs rest : bytes) :
  encode_char c = Some bs ->
  decode_ignore (bs ++ rest) = c :: decode_ignore rest.
Proof.
  unfold encode_char, is_surrogate.
  destruct (Z.ltb_spec c 0); [discriminate|].
  destruct (Z.ltb_spec c 0x80).
  { intros [= <-]. now apply decode_1. }
  pose proof (Z.div_mod c 64 ltac:(lia)) as Hc0.
  pose proof (Z.mod_pos_bound c 64 ltac:(lia)) as Hr0.
  pose proof (Z.div_mod (c / 64) 64 ltac:(lia)) as Hc1.
  pose proof (Z.mod_pos_bound (c / 64) 64 ltac:(lia)) as Hr1.
  pose proof (Z.div_mod (c / 64 / 64) 64 ltac:(lia)) as Hc2.
  pose proof (Z.mod_pos_bound (c / 64 / 64) 64 ltac:(lia)) as Hr2.
  rewrite div_262144, div_4096.
  remember (0xC0 + c / 64) as lead2 eqn:El2.
  remember (0xE0 + c / 64 / 64) as lead3 eqn:El3.
  remember (0xF0 + c / 64 / 64 / 64) as lead4 eqn:El4.
  remember (0x80 + c mod 64) as t0 eqn:Et0.
  remember (0x80 + (c / 64) mod 64) as t1 eqn:Et1.
  remember (0x80 + (c / 64 / 64) mod 64) as t2 eqn:Et2.
  destruct (Z.ltb_spec c 0x800).
  { intros [= <-]. cbn [app]. rewrite decode_2 by lia. f_equal. lia. }
  destruct (Z.leb_spec 0xD800 c), (Z.leb_spec c 0xDFFF); cbn [andb];
    try discriminate;
    (destruct (Z.ltb_spec c 0x10000);
     [|destruct (Z.ltb_spec c 0x110000); [|discriminate]]);
    intros [= <-]; cbn [app];
    first [rewrite decode_3 by lia | rewrite decode_4 by lia];
    f_equal; lia.
Qed.

Lemma encode_strict_cons (c : Z) (s : str) (out : bytes) :
  encode_strict (c :: s) = Ok out ->
  exists bs rest, encode_char c = Some bs /\ encode_strict s = Ok rest /\
                  out = bs ++ rest.
Proof.
  cbn [encode_strict]. destruct (encode_char c) as [bs|]; [|discriminate].
  destruct (encode_strict s) as [rest|e]; cbn [bind]; [|discriminate].
  intros E; inversion E; eauto.
Qed.

(** Where the strict encoding exists, the ignoring one is the same. *)
Lemma encode_ignore_strict (s : str) :
  forall out, encode_strict s = Ok out -> encode_ignore s = out.
Proof.
  induction s as [|c s IH]; intros out E.
  - now inversion E.
  - destruct (encode_strict_cons _ _ _ E) as (bs & rest & Hc & Hs & ->).
    cbn [encode_ignore]. rewrite Hc. f_equal. auto.
Qed.

Lemma decode_encode_strict (s : str) :
  forall out, encode_strict s = Ok out -> decode_ignore out = s.
Proof.
  induction s as [|c s IH]; intros out E.
  - now inversion E.
  - destruct (encode_strict_cons _ _ _ E) as (bs & rest & Hc & Hs & ->).
    rewrite (decode_encode_char _ _ _ Hc). f_equal. auto.
Qed.

(** Every whitespace character has a UTF-8 encoding. *)
Lemma isspace_char_encodable (c : Z) :
  PyStr.isspace_char c = true -> exists bs, encode_char c = Some bs.
Proof.
  unfold PyStr.isspace_char. rewrite !orb_true_iff, !andb_true_iff.
  intros H.
  assert (Hc : 0 <= c < 0xD800) by lia.
  unfold encode_char, is_surrogate.
  destruct (Z.ltb_spec c 0); [lia|].
  destruct (Z.ltb_spec c 0x80); [eauto|].
  destruct (Z.ltb_spec c 0x800); [eauto|].
  destruct (Z.leb_spec 0xD800 c); [lia|]. cbn [andb].
  destruct (Z.ltb_spec c 0x10000); [eauto|lia].
Qed.

Lemma whitespace_encodable (s : str) :
  forallb PyStr.isspace_char s = true -> exists out, encode_strict s = Ok out.
Proof.
  induction s as [|c s IH]; cbn [forallb encode_strict]; [eauto|].
  rewrite andb_true_iff. intros [Hc Hs].
  destruct (isspace_char_encodable _ Hc) as [bs ->].
  destruct (IH Hs) as [rest ->]. cbn [bind]. eauto.
Qed.

End Utf8Facts.

(** ** Dictionaries *)

Section DictFacts.
Variables K V : Type.
Variable K_eq_dec : forall x y : K, {x = y} + {x <> y}.
Local Abbreviation get := (PyDict.get K_eq_dec).
Local Abbreviation set := (PyDict.set K_eq_dec).

Lemma get_set_same (d : PyDict.dict K V) (k : K) (v : V) :
  get (set d k v) k = Some v.
Proof.
  induction d as [|[k' v'] d IH]; simpl.
  - destruct (K_eq_dec k k); congruence.
  - destruct (K_eq_dec k' k) as [E|NE]; simpl.
    + destruct (K_eq_dec k' k); congruence.
    + destruct (K_eq_dec k' k); congruence.
Qed.

Lemma get_set_other (d : PyDict.dict K V) (k k' : K) (v : V) :
  k <> k' -> get (set d k v) k' = get d k'.
Proof.
  intros NE. induction d as [|[k0 v0] d IH]; simpl.
  - destruct (K_eq_dec k k'); congruence.
  - destruct (K_eq_dec k0 k) as [E|NE0]; simpl.
    + subst. destruct (K_eq_dec k k'); congruence.
    + destruct (K_eq_dec k0 k'); congruence.
Qed.

Lemma get_in (d : PyDict.dict K V) (k : K) (v : V) :
  get d k = Some v -> In (k, v) d.
Proof.
  induction d as [|[k0 v0] d IH]; simpl; [discriminate|].
  destruct (K_eq_dec k0 k) as [->|NE]; [intros [= ->]; auto | auto].
Qed.

Lemma in_set (d : PyDict.dict K V) (k k' : K) (v v' : V) :
  In (k', v') (set d k v) -> (k' = k /\ v' = v) \/ In (k', v') d.
Proof.
  induction d as [|[k0 v0] d IH]; simpl.
  - intros [[= -> ->] | []]; auto.
  - destruct (K_eq_dec k0 k) as [->|NE]; simpl.
    + intros [[= -> ->] | H]; auto.
    + intros [H | H]; auto. destruct (IH H); auto.
Qed.
End DictFacts.

Section ReverseDict.

(** An id that no item carries is not a key of the reversed dictionary. *)
Lemma reverse_fold_absent (items : list (str * Z)) (id : Z) :
  forall rd0 : id_dict,
    PyDict.get Z.eq_dec rd0 id = None ->
    (forall w, ~ In (w, id) items) ->
    PyDict.get Z.eq_dec (fold_left rev_step items rd0) id = None.
Proof.
  induction items as [|[w v] items IH]; intros rd0 H0 Hno; simpl; auto.
  apply IH.
  - unfold rev_step; simpl. rewrite get_set_other; auto.
    intros ->. apply (Hno w). now left.
  - intros w' Hin. apply (Hno w'). now right.
Qed.

(** An id carried by the word [w] and by no other word is mapped back to
    [w]. *)
Lemma reverse_fold_unique (items : list (str * Z)) (id : Z) (w : str) :
  forall rd0 : id_dict,
    PyDict.get Z.eq_dec rd0 id = Some w \/ In (w, id) items ->
    (forall w', In (w', id) items -> w' = w) ->
    PyDict.get Z.eq_dec (fold_left rev_step items rd0) id = Some w.
Proof.
  induction items as [|[w0 v0] items IH]; intros rd0 H Huniq; simpl.
  - destruct H as [H | []]; auto.
  - apply IH.
    + unfold rev_step; simpl.
      destruct (Z.eq_dec v0 id) as [->|NE].
      * left. rewrite get_set_same. f_equal. apply Huniq. now left.
      * rewrite get_set_other by auto.
        destruct H as [H | [[= -> ->] | H]]; auto. congruence.
    + intros w' Hin. apply Huniq. now right.
Qed.

Lemma reverse_of_absent (dictionary : word_dict) (id : Z) :
  (forall w, ~ In (w, id) (PyDict.items dictionary)) ->
  PyDict.get Z.eq_dec (reverse_of dictionary) id = None.
Proof. intros H. apply reverse_fold_absent; auto. Qed.

Lemma reverse_of_unique (dictionary : word_dict) (id : Z) (w : str) :
  In (w, id) (PyDict.items dictionary) ->
  (forall w', In (w', id) (PyDict.items dictionary) -> w' = w) ->
  PyDict.get Z.eq_dec (reverse_of dictionary) id = Some w.
Proof. intros H Hu. apply reverse_fold_unique; auto. Qed.

End ReverseDict.


(** ** Loading the dictionary *)

Section Load.
Variable max_lines : Z.

Lemma load_loop_cons (line : str) (lines : list str) (idx : Z) (d : word_dict) :
  idx < max_lines ->
  load_loop (line :: lines) idx max_lines d =
    load_loop lines (idx + 1) max_lines
      match first_word line with
      | Some w => PyDict.set str_eq_dec d w idx
      | None => d
      end.
Proof.
  intros H. cbn [load_loop]. destruct (Z.leb_spec max_lines idx); [lia|].
  unfold first_word. now destruct (PyStr.split (PyStr.strip line)).
Qed.

Lemma load_loop_stop (lines : list str) (idx : Z) (d : word_dict) :
  max_lines <= idx -> load_loop lines idx max_lines d = d.
Proof.
  intros H. destruct lines; cbn [load_loop]; auto.
  destruct (Z.leb_spec max_lines idx); [auto|lia].
Qed.

(** Every item of the loaded dictionary is a word with the rank of a line
    that carries it. *)
Lemma load_loop_items (lines : list str) (w : str) (id : Z) :
  forall (idx : Z) (d : word_dict),
    In (w, id) (load_loop lines idx max_lines d) ->
    In (w, id) d \/
    exists (n : nat) (line : str),
      id = idx + Z.of_nat n /\ id < max_lines /\
      nth_error lines n = Some line /\ first_word line = Some w.
Proof.
  induction lines as [|line lines IH]; intros idx d Hin.
  - now left.
  - destruct (Z_lt_le_dec idx max_lines) as [Hlt|Hge];
      [|rewrite load_loop_stop in Hin by auto; now left].
    rewrite load_loop_cons in Hin by auto.
    destruct (IH _ _ Hin) as [Hd | (n & l & -> & Hmax & Hn & Hw)].
    + destruct (first_word line) as [w0|] eqn:E; [|now left].
      apply in_set in Hd. destruct Hd as [[-> ->] | Hd']; [|now left].
      right. exists 0%nat, line. simpl. repeat split; auto; lia.
    + right. exists (S n), l. repeat split; auto; lia.
Qed.

(** Lines that do not carry [w] leave its entry as it is. *)
Lemma load_loop_no_occurrence (w : str) (lines : list str) :
  forall (idx : Z) (d : word_dict),
    (forall n line, nth_error lines n = Some line ->
                    idx + Z.of_nat n < max_lines -> first_word line <> Some w) ->
    PyDict.get str_eq_dec (load_loop lines idx max_lines d) w =
      PyDict.get str_eq_dec d w.
Proof.
  induction lines as [|line lines IH]; intros idx d Hno; [reflexivity|].
  destruct (Z_lt_le_dec idx max_lines) as [Hlt|Hge];
    [|now rewrite load_loop_stop].
  rewrite load_loop_cons by auto.
  rewrite IH.
  - pose proof (Hno 0%nat line eq_refl ltac:(simpl; lia)) as H0.
    destruct (first_word line) as [w0|]; [|reflexivity].
    apply get_set_other. congruence.
  - intros n l Hn Hmax. apply (Hno (S n) l); auto. lia.
Qed.

(** The last line that carries [w] decides its id. *)
Lemma load_loop_last_occurrence (w : str) (lines : list str) :
  forall (idx : Z) (d : word_dict) (n : nat) (line : str),
    nth_error lines n = Some line ->
    idx + Z.of_nat n < max_lines ->
    first_word line = Some w ->
    (forall m line', (n < m)%nat -> nth_error lines m = Some line' ->
                     idx + Z.of_nat m < max_lines ->
                     first_word line' <> Some w) ->
    PyDict.get str_eq_dec (load_loop lines idx max_lines d) w =
      Some (idx + Z.of_nat n).
Proof.
  induction lines as [|l lines IH]; intros idx d n line Hn Hmax Hw Hlast.
  - destruct n; discriminate.
  - rewrite load_loop_cons by lia.
    destruct n as [|n].
    + injection Hn as ->. rewrite Hw.
      rewrite load_loop_no_occurrence.
      * rewrite get_set_same. f_equal. simpl. lia.
      * intros m l' Hm Hmax'. apply (Hlast (S m) l'); auto; lia.
    + simpl in Hn. rewrite (IH (idx + 1) _ n line); auto.
      * f_equal. lia.
      * lia.
      * intros m l' Hlt Hm Hmax'. apply (Hlast (S m) l'); auto; lia.
Qed.

Lemma word_at_nth (lines : list str) (id : Z) (w : str) :
  word_at lines id = Some w ->
  0 <= id /\ exists line, nth_error lines (Z.to_nat id) = Some line /\
                          first_word line = Some w.
Proof.
  unfold word_at. destruct (Z.ltb_spec id 0); [discriminate|].
  destruct (nth_error lines (Z.to_nat id)) as [line|]; [|discriminate].
  eauto.
Qed.

Lemma nth_word_at (lines : list str) (n : nat) (line : str) :
  nth_error lines n = Some line ->
  word_at lines (Z.of_nat n) = first_word line.
Proof.
  intros H. unfold word_at. destruct (Z.ltb_spec (Z.of_nat n) 0); [lia|].
  now rewrite Nat2Z.id, H.
Qed.

(** What the loaded dictionary holds: ids of lines below the cap, each
    with the word of its line. *)
Lemma load_items (lines : list str) (w : str) (id : Z) :
  In (w, id) (PyDict.items (load_dictionary_from_file lines max_lines)) ->
  0 <= id < max_lines /\ word_at lines id = Some w.
Proof.
  intros Hin. apply load_loop_items in Hin.
  destruct Hin as [[] | (n & line & -> & Hmax & Hn & Hw)].
  split; [lia|]. simpl. now rewrite (nth_word_at _ _ _ Hn).
Qed.

(** C3, as the code has it: where a word is the first field of several
    lines, [load_dictionary_from_file] maps it to the rank of the last of
    them among the lines below [max_lines]; the assignment
    [dictionary[parts[0]] = idx] overwrites the earlier id. *)
Theorem load_dictionary_last_occurrence_wins :
  forall (lines : list str) (w : str) (first last : Z),
    0 <= first < last -> last < max_lines ->
    word_at lines first = Some w ->
    word_at lines last = Some w ->
    (forall j, last < j < max_lines -> word_at lines j <> Some w) ->
    PyDict.get str_eq_dec (load_dictionary_from_file lines max_lines) w
      = Some last /\
    PyDict.get str_eq_dec (load_dictionary_from_file lines max_lines) w
      <> Some first.
Proof.
  intros lines w first last Hfl Hmax Hfirst Hlast Hno.
  assert (E : PyDict.get str_eq_dec
                (load_dictionary_from_file lines max_lines) w = Some last).
  { destruct (word_at_nth _ _ _ Hlast) as (Hl0 & line & Hn & Hw).
    unfold load_dictionary_from_file.
    rewrite (load_loop_last_occurrence w lines 0 [] (Z.to_nat last) line);
      auto.
    - f_equal. lia.
    - lia.
    - intros m l' Hlt Hm Hmax'.
      rewrite <- (nth_word_at _ _ _ Hm). apply Hno. lia. }
  split; [exact E|]. rewrite E. intros [= ->]. lia.
Qed.

End Load.

(** ** The encoder *)

Section Encoder.
Variable dictionary : word_dict.

Lemma bytearray_append_byte (ba : bytes) (v : Z) :
  is_byte v = true -> bytearray_append ba v = Ok (ba ++ [v]).
Proof. unfold bytearray_append. now intros ->. Qed.

Lemma bytearray_append_large (ba : bytes) (n : nat) :
  (255 < n)%nat -> bytearray_append ba (Z.of_nat n) = Raise ValueError.
Proof.
  intros H. unfold bytearray_append, is_byte.
  destruct (Z.ltb_spec (Z.of_nat n) 256); [lia|]. now rewrite andb_false_r.
Qed.

Lemma is_byte_length (n : nat) : (n <= 255)%nat -> is_byte (Z.of_nat n) = true.
Proof. intros H. apply is_byte_iff. lia. Qed.

(** The loop body appends the token's record to the bytearray. *)
Lemma encode_token_record (result : bytes) (token : str) :
  encode_token dictionary result token =
    match record_of dictionary token with
    | Ok rec => Ok (result ++ rec)
    | Raise e => Raise e
    end.
Proof.
  unfold record_of, encode_token, bytearray_append.
  destruct (PyStr.isspace token).
  - change (is_byte 2) with true; change (is_byte 1) with true;
      change (is_byte 0) with true; cbn [bind app].
    destruct (Utf8.encode_strict token) as [encoded|e]; cbn [bind]; auto.
    destruct (is_byte (Z.of_nat (length encoded))); cbn [bind app]; auto.
    now rewrite <- !app_assoc.
  - destruct (PyDict.get str_eq_dec dictionary token) as [code|].
    + change (is_byte 2) with true; change (is_byte 1) with true;
      change (is_byte 0) with true; cbn [bind app].
      rewrite int_to_3bytes_ok. cbn [bind app].
      now rewrite <- !app_assoc.
    + change (is_byte 2) with true; change (is_byte 1) with true;
      change (is_byte 0) with true; cbn [bind app].
      destruct (is_byte (Z.of_nat (length (Utf8.encode_ignore token))));
        cbn [bind app]; auto.
      now rewrite <- !app_assoc.
Qed.

(** The three shapes of a record. *)
Lemma record_of_space (token : str) (encoded : bytes) :
  PyStr.isspace token = true ->
  Utf8.encode_strict token = Ok encoded ->
  record_of dictionary token =
    if is_byte (Z.of_nat (length encoded))
    then Ok (2 :: Z.of_nat (length encoded) :: encoded)
    else Raise ValueError.
Proof.
  intros Hs He. unfold record_of, encode_token, bytearray_append.
  rewrite Hs, He.
  change (is_byte 2) with true; change (is_byte 1) with true;
      change (is_byte 0) with true; cbn [bind app].
  now destruct (is_byte (Z.of_nat (length encoded))).
Qed.

Lemma record_of_known (token : str) (code : Z) :
  PyStr.isspace token = false ->
  PyDict.get str_eq_dec dictionary token = Some code ->
  record_of dictionary token =
    Ok [1; Z.land (Z.shiftr code 16) 0xFF; Z.land (Z.shiftr code 8) 0xFF;
        Z.land code 0xFF].
Proof.
  intros Hs Hg. unfold record_of, encode_token, bytearray_append.
  rewrite Hs, Hg.
  change (is_byte 2) with true; change (is_byte 1) with true;
      change (is_byte 0) with true; cbn [bind app].
  now rewrite int_to_3bytes_ok.
Qed.

Lemma record_of_unknown (token : str) :
  PyStr.isspace token = false ->
  PyDict.get str_eq_dec dictionary token = None ->
  record_of dictionary token =
    if is_byte (Z.of_nat (length (Utf8.encode_ignore token)))
    then Ok (0 :: Z.of_nat (length (Utf8.encode_ignore token))
               :: Utf8.encode_ignore token)
    else Raise ValueError.
Proof.
  intros Hs Hg. unfold record_of, encode_token, bytearray_append.
  rewrite Hs, Hg.
  change (is_byte 2) with true; change (is_byte 1) with true;
      change (is_byte 0) with true; cbn [bind app].
  now destruct (is_byte (Z.of_nat (length (Utf8.encode_ignore token)))).
Qed.

Lemma isspace_all (token : str) :
  PyStr.isspace token = true -> forallb PyStr.isspace_char token = true.
Proof. destruct token; [discriminate|auto]. Qed.

(** Whatever the encoder emits for a token is one complete record. *)
Lemma record_of_framed (token : str) (rec : bytes) :
  record_of dictionary token = Ok rec -> record_bytes rec.
Proof.
  destruct (PyStr.isspace token) eqn:Hs.
  - destruct (whitespace_encodable _ (isspace_all _ Hs)) as [encoded He].
    rewrite (record_of_space _ _ Hs He).
    destruct (is_byte (Z.of_nat (length encoded))); [|discriminate].
    intros [= <-]. apply record_literal; [auto | apply Nat2Z.id].
  - destruct (PyDict.get str_eq_dec dictionary token) as [code|] eqn:Hg.
    + rewrite (record_of_known _ _ Hs Hg). intros [= <-]. constructor.
    + rewrite (record_of_unknown _ Hs Hg).
      destruct (is_byte _); [|discriminate].
      intros [= <-]. apply record_literal; [auto | apply Nat2Z.id].
Qed.

(** The only exception of the encoder is the [ValueError] of [append]. *)
Lemma record_of_raise (token : str) (e : exn) :
  PyStr.run token -> record_of dictionary token = Raise e -> e = ValueError.
Proof.
  intros Hrun. destruct (PyStr.isspace token) eqn:Hs.
  - destruct (whitespace_encodable _ (isspace_all _ Hs)) as [encoded He].
    rewrite (record_of_space _ _ Hs He).
    destruct (is_byte _); [discriminate|]. now intros [= <-].
  - destruct (PyDict.get str_eq_dec dictionary token) as [code|] eqn:Hg.
    + rewrite (record_of_known _ _ Hs Hg). discriminate.
    + rewrite (record_of_unknown _ Hs Hg).
      destruct (is_byte _); [discriminate|]. now intros [= <-].
Qed.

(** The encoder's output is the concatenation of the tokens' records. *)
Lemma encode_tokens_records (tokens : list str) :
  forall (result data : bytes),
    encode_tokens dictionary tokens result = Ok data ->
    exists recs : list bytes,
      Forall2 (fun token rec => record_of dictionary token = Ok rec)
              tokens recs /\
      data = result ++ concat recs.
Proof.
  induction tokens as [|token tokens IH]; intros result data E.
  - injection E as <-. exists []. split; [constructor|]. now rewrite app_nil_r.
  - cbn [encode_tokens] in E. rewrite encode_token_record in E.
    destruct (record_of dictionary token) as [rec|e] eqn:Hrec;
      cbn [bind] in E; [|discriminate].
    destruct (IH _ _ E) as (recs & Hall & ->).
    exists (rec :: recs). split; [constructor; auto|].
    simpl. now rewrite app_assoc.
Qed.

Lemma records_encode_tokens (tokens : list str) (recs : list bytes) :
  Forall2 (fun token rec => record_of dictionary token = Ok rec) tokens recs ->
  forall result, encode_tokens dictionary tokens result
                 = Ok (result ++ concat recs).
Proof.
  induction 1 as [|token rec tokens recs Hrec _ IH]; intros result.
  - simpl. now rewrite app_nil_r.
  - cbn [encode_tokens]. rewrite encode_token_record, Hrec. cbn [bind].
    rewrite IH. simpl. now rewrite app_assoc.
Qed.

(** One token whose record cannot be built makes the whole call raise. *)
Lemma encode_tokens_raise (tokens : list str) (token : str) :
  Forall PyStr.run tokens ->
  In token tokens ->
  record_of dictionary token = Raise ValueError ->
  forall result, encode_tokens dictionary tokens result = Raise ValueError.
Proof.
  induction 1 as [|t tokens Hrun _ IH]; intros Hin Hbad result; [destruct Hin|].
  cbn [encode_tokens]. rewrite encode_token_record.
  destruct (record_of dictionary t) as [rec|e] eqn:Hrec; cbn [bind].
  - destruct Hin as [-> | Hin]; [congruence|]. now apply IH.
  - f_equal. now apply (record_of_raise t).
Qed.

End Encoder.


(** ** The codec *)

Section Codec.

Lemma decoded_literal_alone (dictionary : word_dict) (tag len : Z)
    (payload : bytes) :
  tag = 0 \/ tag = 2 -> Z.to_nat len = length payload ->
  decoded dictionary (tag :: len :: payload) = Utf8.decode_ignore payload.
Proof.
  intros Ht Hl. rewrite <- (app_nil_r (tag :: len :: payload)).
  now rewrite decoded_literal, decoded_nil, app_nil_r.
Qed.

Lemma decoded_dict_ref_alone (dictionary : word_dict) (b0 b1 b2 : Z) :
  decoded dictionary [1; b0; b1; b2] =
    PyDict.get_default Z.eq_dec (reverse_of dictionary) (id_of_bytes b0 b1 b2) [].
Proof.
  change [1; b0; b1; b2] with ([1; b0; b1; b2] ++ []).
  now rewrite decoded_dict_ref, decoded_nil, app_nil_r.
Qed.

(** The decoder gives for a complete record the text that its bytes
    stand for. *)
Lemma decoded_record_text (dictionary : word_dict) (rec : bytes) :
  record_bytes rec ->
  decoded dictionary rec = record_text (reverse_of dictionary) rec.
Proof.
  intros [b0 b1 b2 | tag len payload Ht Hl].
  - rewrite decoded_dict_ref_alone. reflexivity.
  - rewrite decoded_literal_alone by auto.
    destruct Ht as [-> | ->]; reflexivity.
Qed.

Lemma decoded_records_text (dictionary : word_dict) (recs : list bytes) :
  Forall record_bytes recs ->
  decoded dictionary (concat recs)
    = concat (map (record_text (reverse_of dictionary)) recs).
Proof.
  intros H. rewrite <- (app_nil_r (concat recs)).
  rewrite decoded_records, decoded_nil, app_nil_r by auto. f_equal.
  induction H as [|rec recs Hrec _ IH]; [reflexivity|].
  cbn [map]. now rewrite (decoded_record_text _ _ Hrec), IH.
Qed.

(** A dictionary read from a word list of at most [2^24] lines can be
    carried by the id field. *)
Lemma load_round_trip_dict (lines : list str) (max_lines : Z) :
  max_lines <= max_lines_default ->
  round_trip_dict (load_dictionary_from_file lines max_lines).
Proof.
  intros Hmax w code Hg. apply get_in in Hg.
  destruct (load_items _ _ _ _ Hg) as [Hr Hw].
  split; [unfold max_lines_default in Hmax; lia|].
  apply reverse_of_unique; auto.
  intros w' Hin. apply load_items in Hin. destruct Hin as [_ Hw']. congruence.
Qed.

(** The record of a token that fits decodes to the token. *)
Lemma token_round_trip (dictionary : word_dict) (token : str) :
  round_trip_dict dictionary ->
  fits_length_byte token ->
  exists rec, record_of dictionary token = Ok rec /\
              decoded dictionary rec = token.
Proof.
  intros Hd (encoded & He & Hlen).
  destruct (PyStr.isspace token) eqn:Hs.
  - rewrite (record_of_space _ _ _ Hs He), is_byte_length by auto.
    eexists; split; [reflexivity|].
    rewrite decoded_literal_alone by (auto; apply Nat2Z.id).
    now apply decode_encode_strict.
  - destruct (PyDict.get str_eq_dec dictionary token) as [code|] eqn:Hg.
    + rewrite (record_of_known _ _ _ Hs Hg).
      eexists; split; [reflexivity|].
      destruct (Hd _ _ Hg) as [Hr Hrev].
      rewrite decoded_dict_ref_alone. unfold id_of_bytes.
      rewrite pack_unpack_24 by auto.
      unfold PyDict.get_default. now rewrite Hrev.
    + rewrite (record_of_unknown _ _ Hs Hg).
      rewrite (encode_ignore_strict _ _ He), is_byte_length by auto.
      eexists; split; [reflexivity|].
      rewrite decoded_literal_alone by (auto; apply Nat2Z.id).
      now apply decode_encode_strict.
Qed.

Lemma tokens_round_trip (dictionary : word_dict) (tokens : list str) :
  round_trip_dict dictionary ->
  Forall fits_length_byte tokens ->
  exists recs,
    Forall2 (fun token rec => record_of dictionary token = Ok rec) tokens recs /\
    Forall record_bytes recs /\
    concat (map (decoded dictionary) recs) = concat tokens.
Proof.
  intros Hd. induction 1 as [|token tokens Hfit _ IH].
  - exists []. repeat split; constructor.
  - destruct IH as (recs & Hall & Hframed & Hcat).
    destruct (token_round_trip dictionary token Hd Hfit) as (rec & Hrec & Hdec).
    exists (rec :: recs). repeat split.
    + now constructor.
    + constructor; auto. eapply record_of_framed; eauto.
    + simpl. now rewrite Hdec, Hcat.
Qed.

(** C1: for every text whose tokens each have a UTF-8 encoding of at most
    255 bytes, and every dictionary built by [load_dictionary_from_file]
    from at most [2^24] lines (so that every id fits in 24 bits), encoding
    succeeds and decoding the result with the same dictionary gives the
    text back. *)
Theorem compress_decompress_round_trip :
  forall (lines : list str) (max_lines : Z) (text : str),
    max_lines <= max_lines_default ->
    Forall fits_length_byte (PyStr.findall text) ->
    exists data : bytes,
      compress_text_with_dictionary text
        (load_dictionary_from_file lines max_lines) = Ok data /\
      decompress_text_with_dictionary data
        (load_dictionary_from_file lines max_lines) = Some (Ok text).
Proof.
  intros lines max_lines text Hmax Hfit.
  set (dictionary := load_dictionary_from_file lines max_lines).
  destruct (tokens_round_trip dictionary (PyStr.findall text)
              (load_round_trip_dict lines max_lines Hmax) Hfit)
    as (recs & Hall & Hframed & Hcat).
  exists (concat recs). split.
  - unfold compress_text_with_dictionary.
    now rewrite (records_encode_tokens dictionary _ _ Hall).
  - rewrite decompress_decoded. do 2 f_equal.
    rewrite <- (app_nil_r (concat recs)).
    rewrite decoded_records, decoded_nil, app_nil_r by auto.
    rewrite Hcat. apply findall_concat.
Qed.

(** C2, as the code has it: a token whose UTF-8 encoding exceeds 255 bytes
    and that is a whitespace run or a word absent from the dictionary is
    not truncated: appending its length to the bytearray raises
    [ValueError], and [compress_text_with_dictionary] returns no bytes. *)
Theorem oversized_token_raises :
  forall (text : str) (dictionary : word_dict) (token : str),
    In token (PyStr.findall text) ->
    (255 < length (Utf8.encode_ignore token))%nat ->
    PyStr.isspace token = true \/
    PyDict.get str_eq_dec dictionary token = None ->
    compress_text_with_dictionary text dictionary = Raise ValueError.
Proof.
  intros text dictionary token Hin Hlen Hlit.
  unfold compress_text_with_dictionary.
  apply (encode_tokens_raise dictionary _ token (findall_runs text) Hin).
  destruct (PyStr.isspace token) eqn:Hs.
  - destruct (whitespace_encodable _ (isspace_all _ Hs)) as [encoded He].
    rewrite (record_of_space _ _ _ Hs He).
    rewrite (encode_ignore_strict _ _ He) in Hlen.
    unfold is_byte. destruct (Z.ltb_spec (Z.of_nat (length encoded)) 256); [lia|].
    now rewrite andb_false_r.
  - destruct Hlit as [Hlit|Hg]; [discriminate|].
    rewrite (record_of_unknown _ _ Hs Hg).
    unfold is_byte.
    destruct (Z.ltb_spec (Z.of_nat (length (Utf8.encode_ignore token))) 256);
      [lia|].
    now rewrite andb_false_r.
Qed.

(** C4, as the code has it: a tag byte other than 0, 1 and 2 ends nothing;
    the body appends no text, moves the cursor one byte on, and the loop
    goes on with the next byte, so that the bytes after the unknown tag
    contribute whatever decoding them yields. *)
Theorem unknown_tag_is_skipped :
  forall (dictionary : word_dict) (recs : list bytes) (tag : Z) (rest : bytes)
         (result : list str),
    Forall record_bytes recs ->
    tag <> 0 -> tag <> 1 -> tag <> 2 ->
    decode_step (concat recs ++ tag :: rest) (reverse_of dictionary)
                (length (concat recs), result)
      = Ok (Continue (S (length (concat recs)), result)) /\
    decompress_text_with_dictionary (concat recs ++ tag :: rest) dictionary
      = Some (Ok (concat (map (decoded dictionary) recs)
                  ++ decoded dictionary rest)).
Proof.
  intros dictionary recs tag rest result Hrecs H0 H1 H2. split.
  - pose proof (decode_step_relocate (reverse_of dictionary) (concat recs)
                  (tag :: rest) 0 result []) as E.
    rewrite Nat.add_0_r, app_nil_r in E. rewrite E.
    rewrite step_unknown_tag by auto. cbn [relocate].
    now rewrite app_nil_r, Nat.add_1_r.
  - rewrite decompress_decoded, decoded_records by auto.
    now rewrite decoded_unknown_tag.
Qed.

(** C5, as the code has it: a stream that ends inside a record is decoded
    without an error. Where the id bytes of a tag-1 record or the length
    byte of a tag-0/2 record are missing, the result is the concatenation
    of the records before it. Where the payload of a tag-0/2 record is
    short, the bytes that are there are decoded (UTF-8, errors ignored)
    and appended after the earlier records. *)
Theorem truncated_stream_partial_result :
  forall (dictionary : word_dict) (recs : list bytes) (tail : bytes) (s : str),
    Forall record_bytes recs ->
    truncated_record tail s ->
    decompress_text_with_dictionary (concat recs ++ tail) dictionary
      = Some (Ok (concat (map (decoded dictionary) recs) ++ s)).
Proof.
  intros dictionary recs tail s Hrecs Htail.
  rewrite decompress_decoded, decoded_records by auto.
  now rewrite (decoded_truncated dictionary tail s Htail).
Qed.

(** C6: a tag-1 record whose id no word of the dictionary carries makes
    the decoder append the empty string and go on. At the record the loop
    body appends [""] and moves the cursor past its four bytes, and the
    loop runs on from there, neither failing nor stopping. The whole
    stream decodes to the text of the records before it, the empty string,
    and what the bytes after it decode to; where these are complete
    records, that is the text of each of them, so every later record is
    decoded. *)
Theorem unknown_id_decodes_to_empty :
  forall (dictionary : word_dict) (recs : list bytes) (b0 b1 b2 : Z)
         (rest : bytes) (result : list str),
    Forall record_bytes recs ->
    (forall w, ~ In (w, id_of_bytes b0 b1 b2) (PyDict.items dictionary)) ->
    decode_step (concat recs ++ [1; b0; b1; b2] ++ rest)
                (reverse_of dictionary) (length (concat recs), result)
      = Ok (Continue ((length (concat recs) + 4)%nat, result ++ [[]])) /\
    (forall fuel : nat,
       decode_loop (S fuel) (concat recs ++ [1; b0; b1; b2] ++ rest)
                   (reverse_of dictionary) (length (concat recs), result)
       = decode_loop fuel (concat recs ++ [1; b0; b1; b2] ++ rest)
                     (reverse_of dictionary)
                     ((length (concat recs) + 4)%nat, result ++ [[]])) /\
    decompress_text_with_dictionary (concat recs ++ [1; b0; b1; b2] ++ rest)
                                    dictionary
      = Some (Ok (concat (map (decoded dictionary) recs) ++ []
                  ++ decoded dictionary rest)) /\
    (forall later : list bytes,
       Forall record_bytes later ->
       decompress_text_with_dictionary
         (concat recs ++ [1; b0; b1; b2] ++ concat later) dictionary
       = Some (Ok (concat (map (record_text (reverse_of dictionary)) recs)
                   ++ []
                   ++ concat (map (record_text (reverse_of dictionary))
                                  later)))).
Proof.
  intros dictionary recs b0 b1 b2 rest result Hrecs Habs.
  pose proof (reverse_of_absent dictionary _ Habs) as Hget.
  assert (Hstep : forall rest' : bytes,
            decode_step (concat recs ++ [1; b0; b1; b2] ++ rest')
                        (reverse_of dictionary) (length (concat recs), result)
            = Ok (Continue ((length (concat recs) + 4)%nat, result ++ [[]]))).
  { intros rest'.
    pose proof (decode_step_relocate (reverse_of dictionary) (concat recs)
                  ([1; b0; b1; b2] ++ rest') 0 result []) as E.
    rewrite Nat.add_0_r, app_nil_r in E. rewrite E.
    rewrite step_dict_ref. cbn [relocate].
    unfold PyDict.get_default. now rewrite Hget. }
  split; [apply Hstep|]. split; [|split].
  - intros fuel. rewrite decode_loop_S. cbn [fst snd].
    destruct (Nat.ltb_spec (length (concat recs))
                (length (concat recs ++ [1; b0; b1; b2] ++ rest))) as [_|H].
    + now rewrite Hstep.
    + rewrite length_app in H. cbn [app length] in H. lia.
  - rewrite decompress_decoded, decoded_records by auto.
    rewrite decoded_dict_ref. unfold PyDict.get_default. now rewrite Hget.
  - intros later Hlater.
    rewrite decompress_decoded, decoded_records by auto.
    rewrite decoded_dict_ref. unfold PyDict.get_default. rewrite Hget.
    rewrite (decoded_records_text _ _ Hlater).
    replace (map (decoded dictionary) recs)
      with (map (record_text (reverse_of dictionary)) recs); [reflexivity|].
    clear -Hrecs. induction Hrecs as [|rec recs Hrec _ IH]; [reflexivity|].
    cbn [map]. now rewrite (decoded_record_text _ _ Hrec), IH.
Qed.

(** C9: cutting an encoded stream at a record boundary leaves the earlier
    records as they were: the prefix made of the first [k] records decodes
    to the concatenation of what these records decode to, and the whole
    stream decodes to that text followed by the text of the other
    records. *)
Theorem prefix_at_record_boundary :
  forall (text : str) (dictionary dictionary' : word_dict) (data : bytes)
         (k : nat),
    compress_text_with_dictionary text dictionary = Ok data ->
    exists recs : list bytes,
      Forall2 (fun token rec => record_of dictionary token = Ok rec)
              (PyStr.findall text) recs /\
      data = concat (firstn k recs) ++ concat (skipn k recs) /\
      decompress_text_with_dictionary (concat (firstn k recs)) dictionary'
        = Some (Ok (concat (map (decoded dictionary') (firstn k recs)))) /\
      decompress_text_with_dictionary data dictionary'
        = Some (Ok (concat (map (decoded dictionary') (firstn k recs))
                    ++ concat (map (decoded dictionary') (skipn k recs)))).
Proof.
  intros text dictionary dictionary' data k E.
  destruct (encode_tokens_records dictionary _ _ _ E) as (recs & Hall & ->).
  assert (Hframed : Forall record_bytes recs).
  { clear E. induction Hall; constructor; auto.
    eapply record_of_framed; eauto. }
  exists recs. simpl app.
  rewrite <- (firstn_skipn k recs) in Hframed.
  apply Forall_app in Hframed. destruct Hframed as [Hpre Hsuf].
  repeat split; auto.
  - now rewrite <- concat_app, firstn_skipn.
  - rewrite decompress_decoded. do 2 f_equal.
    rewrite <- (app_nil_r (concat (firstn k recs))).
    now rewrite decoded_records, decoded_nil, app_nil_r.
  - rewrite decompress_decoded. do 2 f_equal.
    rewrite <- (firstn_skipn k recs) at 1.
    rewrite concat_app, decoded_records by auto. f_equal.
    rewrite <- (app_nil_r (concat (skipn k recs))).
    now rewrite decoded_records, decoded_nil, app_nil_r.
Qed.

(** C10: the decoder is total. On every byte sequence and with every
    dictionary [decompress_text_with_dictionary] returns a string: it runs
    out of no fuel and raises nothing, because a run of the loop body
    inside the stream raises nothing and, where it continues, leaves the
    cursor strictly further on. *)
Theorem decompress_total :
  forall (data : bytes) (dictionary : word_dict),
    (exists s : str,
       decompress_text_with_dictionary data dictionary = Some (Ok s)) /\
    (forall (i : nat) (result : list str),
       match decode_step data (reverse_of dictionary) (i, result) with
       | Ok (Continue (i', _)) => (i < i')%nat
       | Ok (Break _) => (i < length data)%nat
       | Raise _ => (length data <= i)%nat
       end).
Proof.
  intros data dictionary. split.
  - exists (decoded dictionary data). apply decompress_decoded.
  - intros i result.
    destruct (decode_step data (reverse_of dictionary) (i, result))
      as [[[i' r'] | st'] | e] eqn:E.
    + eapply decode_step_progress; eauto.
    + destruct (Nat.lt_ge_cases i (length data)) as [H|H]; auto.
      unfold decode_step, getitem in E.
      apply nth_error_None in H. rewrite H in E. discriminate.
    + destruct (Nat.lt_ge_cases i (length data)) as [H|H]; auto.
      destruct (decode_step_no_raise (reverse_of dictionary) data i result H)
        as [c Hc]. congruence.
Qed.

End Codec.


(** ** Concrete runs *)

Section Runs.

Lemma compress_decompress_round_trip_witness :
  max_lines_default <= max_lines_default /\
  Forall fits_length_byte
    (PyStr.findall [116; 104; 101; 32; 233; 0x20AC; 32; 10; 102; 111; 120]) /\
  exists data : bytes,
    compress_text_with_dictionary
      [116; 104; 101; 32; 233; 0x20AC; 32; 10; 102; 111; 120]
      (load_dictionary_from_file
         [[116; 104; 101; 10]; [10]; [102; 111; 120; 32; 49; 10]; [116; 104; 101]]
         max_lines_default) = Ok data /\
    decompress_text_with_dictionary data
      (load_dictionary_from_file
         [[116; 104; 101; 10]; [10]; [102; 111; 120; 32; 49; 10]; [116; 104; 101]]
         max_lines_default)
      = Some (Ok [116; 104; 101; 32; 233; 0x20AC; 32; 10; 102; 111; 120]).
Proof.
  assert (Hmax : max_lines_default <= max_lines_default) by reflexivity.
  assert (Hfit : Forall fits_length_byte
            (PyStr.findall
               [116; 104; 101; 32; 233; 0x20AC; 32; 10; 102; 111; 120])).
  { change (PyStr.findall
              [116; 104; 101; 32; 233; 0x20AC; 32; 10; 102; 111; 120])
      with [[116; 104; 101]; [32]; [233; 0x20AC]; [32; 10]; [102; 111; 120]].
    repeat (constructor;
            [eexists; split; [reflexivity | apply Nat.leb_le; reflexivity]|]).
    constructor. }
  split; [exact Hmax|]. split; [exact Hfit|].
  exact (compress_decompress_round_trip _ max_lines_default _ Hmax Hfit).
Defined.

Lemma oversized_token_raises_witness :
  In (repeat 32%Z 300) (PyStr.findall (repeat 32%Z 300)) /\
  (255 < length (Utf8.encode_ignore (repeat 32%Z 300)))%nat /\
  compress_text_with_dictionary (repeat 32%Z 300) [] = Raise ValueError.
Proof.
  assert (Hin : In (repeat 32%Z 300) (PyStr.findall (repeat 32%Z 300)))
    by (vm_compute; left; reflexivity).
  assert (Hlen : (255 < length (Utf8.encode_ignore (repeat 32%Z 300)))%nat)
    by (apply Nat.ltb_lt; vm_compute; reflexivity).
  split; [exact Hin|]. split; [exact Hlen|].
  exact (oversized_token_raises (repeat 32%Z 300) [] (repeat 32%Z 300) Hin Hlen
           (or_introl eq_refl)).
Defined.

(** C2 fails as stated: a run of 300 spaces is not encoded with the length
    byte 255 and 255 spaces; the call raises [ValueError]. *)
Lemma oversized_token_not_truncated :
  compress_text_with_dictionary (repeat 32%Z 300) [] = Raise ValueError /\
  compress_text_with_dictionary (repeat 32%Z 300) []
    <> Ok (2 :: 255 :: repeat 32%Z 255).
Proof.
  assert (E : compress_text_with_dictionary (repeat 32%Z 300) []
              = Raise ValueError) by (vm_compute; reflexivity).
  split; [exact E|]. rewrite E. discriminate.
Qed.

Lemma load_dictionary_last_occurrence_wins_witness :
  0 <= 0 < 2 /\ 2 < 3 /\
  word_at [[97; 10]; [98; 10]; [97; 10]] 0 = Some [97] /\
  word_at [[97; 10]; [98; 10]; [97; 10]] 2 = Some [97] /\
  (forall j, 2 < j < 3 ->
             word_at [[97; 10]; [98; 10]; [97; 10]] j <> Some [97]) /\
  PyDict.get str_eq_dec
    (load_dictionary_from_file [[97; 10]; [98; 10]; [97; 10]] 3) [97]
    = Some 2 /\
  PyDict.get str_eq_dec
    (load_dictionary_from_file [[97; 10]; [98; 10]; [97; 10]] 3) [97]
    <> Some 0.
Proof.
  assert (H1 : 0 <= 0 < 2) by lia.
  assert (H2 : 2 < 3) by lia.
  assert (H3 : word_at [[97; 10]; [98; 10]; [97; 10]] 0 = Some [97])
    by reflexivity.
  assert (H4 : word_at [[97; 10]; [98; 10]; [97; 10]] 2 = Some [97])
    by reflexivity.
  assert (H5 : forall j, 2 < j < 3 ->
                 word_at [[97; 10]; [98; 10]; [97; 10]] j <> Some [97])
    by (intros j Hj; lia).
  repeat (split; [assumption|]).
  exact (load_dictionary_last_occurrence_wins 3 _ _ 0 2 H1 H2 H3 H4 H5).
Defined.

(** C3 fails as stated: with the word list [a, b, a] and the default
    [max_lines], the word [a] gets the id 2 of its last line, not the id 0
    of its first. *)
Lemma load_dictionary_first_occurrence_lost :
  PyDict.get str_eq_dec
    (load_dictionary_from_file [[97; 10]; [98; 10]; [97; 10]] max_lines_default)
    [97] = Some 2 /\
  PyDict.get str_eq_dec
    (load_dictionary_from_file [[97; 10]; [98; 10]; [97; 10]] max_lines_default)
    [97] <> Some 0.
Proof. split; [reflexivity | discriminate]. Qed.

Lemma unknown_tag_is_skipped_witness :
  Forall record_bytes [[0; 1; 97]] /\ 3 <> 0 /\ 3 <> 1 /\ 3 <> 2 /\
  decode_step (concat [[0; 1; 97]] ++ 3 :: [2; 1; 32]) (reverse_of [])
              (length (concat [[0; 1; 97]]), [[97]])
    = Ok (Continue (S (length (concat [[0; 1; 97]])), [[97]])) /\
  decompress_text_with_dictionary (concat [[0; 1; 97]] ++ 3 :: [2; 1; 32]) []
    = Some (Ok (concat (map (decoded []) [[0; 1; 97]]) ++ decoded [] [2; 1; 32])).
Proof.
  assert (Hrecs : Forall record_bytes [[0; 1; 97]]).
  { constructor; [|constructor].
    apply record_literal; [left; reflexivity | reflexivity]. }
  assert (H0 : 3 <> 0) by discriminate.
  assert (H1 : 3 <> 1) by discriminate.
  assert (H2 : 3 <> 2) by discriminate.
  repeat (split; [assumption|]).
  exact (unknown_tag_is_skipped [] [[0; 1; 97]] 3 [2; 1; 32] [[97]]
           Hrecs H0 H1 H2).
Defined.

(** C4 fails as stated: in the stream [3, 0, 1, 'a'] the unknown tag 3
    comes first, so that stopping there would give the empty text; the
    decoder returns the text of the record after it. *)
Lemma unknown_tag_does_not_stop :
  decompress_text_with_dictionary [3; 0; 1; 97] [] = Some (Ok [97]) /\
  decompress_text_with_dictionary [3; 0; 1; 97] [] <> Some (Ok []).
Proof. split; [reflexivity | discriminate]. Qed.

Lemma truncated_stream_partial_result_witness :
  Forall record_bytes [[2; 1; 32]] /\
  truncated_record [0; 5; 97; 98] (Utf8.decode_ignore [97; 98]) /\
  decompress_text_with_dictionary (concat [[2; 1; 32]] ++ [0; 5; 97; 98]) []
    = Some (Ok (concat (map (decoded []) [[2; 1; 32]])
                ++ Utf8.decode_ignore [97; 98])).
Proof.
  assert (Hrecs : Forall record_bytes [[2; 1; 32]]).
  { constructor; [|constructor].
    apply record_literal; [right; reflexivity | reflexivity]. }
  assert (Htail : truncated_record [0; 5; 97; 98] (Utf8.decode_ignore [97; 98])).
  { apply truncated_payload; [left; reflexivity|].
    apply Nat.ltb_lt; reflexivity. }
  split; [exact Hrecs|]. split; [exact Htail|].
  exact (truncated_stream_partial_result [] [[2; 1; 32]] [0; 5; 97; 98] _
           Hrecs Htail).
Defined.

(** C5 fails as stated: the stream [0, 5, 'a', 'b'] is one tag-0 record
    with two of its five payload bytes; no record comes before it, and the
    decoder returns the text of the two bytes, not the empty text. *)
Lemma short_payload_contributes :
  decompress_text_with_dictionary [0; 5; 97; 98] [] = Some (Ok [97; 98]) /\
  decompress_text_with_dictionary [0; 5; 97; 98] [] <> Some (Ok []).
Proof. split; [reflexivity | discriminate]. Qed.

Lemma unknown_id_decodes_to_empty_witness :
  Forall record_bytes [[2; 1; 32]] /\
  (forall w, ~ In (w, id_of_bytes 0 0 7)
               (PyDict.items [([116; 104; 101], 0)])) /\
  decode_step (concat [[2; 1; 32]] ++ [1; 0; 0; 7] ++ [1; 0; 0; 0])
              (reverse_of [([116; 104; 101], 0)])
              (length (concat [[2; 1; 32]]), [[32]])
    = Ok (Continue ((length (concat [[2; 1; 32]]) + 4)%nat, [[32]] ++ [[]])) /\
  (forall fuel : nat,
     decode_loop (S fuel) (concat [[2; 1; 32]] ++ [1; 0; 0; 7] ++ [1; 0; 0; 0])
                 (reverse_of [([116; 104; 101], 0)])
                 (length (concat [[2; 1; 32]]), [[32]])
     = decode_loop fuel (concat [[2; 1; 32]] ++ [1; 0; 0; 7] ++ [1; 0; 0; 0])
                   (reverse_of [([116; 104; 101], 0)])
                   ((length (concat [[2; 1; 32]]) + 4)%nat, [[32]] ++ [[]])) /\
  decompress_text_with_dictionary
    (concat [[2; 1; 32]] ++ [1; 0; 0; 7] ++ [1; 0; 0; 0])
    [([116; 104; 101], 0)]
    = Some (Ok (concat (map (decoded [([116; 104; 101], 0)]) [[2; 1; 32]])
                ++ [] ++ decoded [([116; 104; 101], 0)] [1; 0; 0; 0])) /\
  (forall later : list bytes,
     Forall record_bytes later ->
     decompress_text_with_dictionary
       (concat [[2; 1; 32]] ++ [1; 0; 0; 7] ++ concat later)
       [([116; 104; 101], 0)]
     = Some (Ok (concat (map (record_text (reverse_of [([116; 104; 101], 0)]))
                             [[2; 1; 32]])
                 ++ []
                 ++ concat (map (record_text
                                   (reverse_of [([116; 104; 101], 0)]))
                                later)))) /\
  decompress_text_with_dictionary
    [2; 1; 32; 1; 0; 0; 7; 0; 1; 97; 1; 0; 0; 0] [([116; 104; 101], 0)]
    = Some (Ok [32; 97; 116; 104; 101]).
Proof.
  assert (Hrecs : Forall record_bytes [[2; 1; 32]]).
  { constructor; [|constructor].
    apply record_literal; [right; reflexivity | reflexivity]. }
  assert (Habs : forall w, ~ In (w, id_of_bytes 0 0 7)
                             (PyDict.items [([116; 104; 101], 0)])).
  { intros w [H | []]. discriminate H. }
  assert (Hlater : Forall record_bytes [[0; 1; 97]; [1; 0; 0; 0]]).
  { constructor; [|constructor; [|constructor]].
    - apply record_literal; [left; reflexivity | reflexivity].
    - apply record_dict_ref. }
  split; [exact Hrecs|]. split; [exact Habs|].
  pose proof (unknown_id_decodes_to_empty [([116; 104; 101], 0)] [[2; 1; 32]]
                0 0 7 [1; 0; 0; 0] [[32]] Hrecs Habs) as H.
  split; [exact (proj1 H)|]. split; [exact (proj1 (proj2 H))|].
  split; [exact (proj1 (proj2 (proj2 H)))|].
  split; [exact (proj2 (proj2 (proj2 H)))|].
  exact (proj2 (proj2 (proj2 H)) [[0; 1; 97]; [1; 0; 0; 0]] Hlater).
Defined.

(** A run of the decoder over an unknown id: in the stream
    [" "], id 7, ["a"], id 0, with the dictionary the = 0, the record of
    the id 7 gives the empty string and the two records after it are
    decoded: the result is [" athe"]. *)
Example unknown_id_then_later_records :
  decompress_text_with_dictionary
    ([2; 1; 32] ++ [1; 0; 0; 7] ++ [0; 1; 97] ++ [1; 0; 0; 0])
    [([116; 104; 101], 0)]
    = Some (Ok [32; 97; 116; 104; 101]).
Proof. reflexivity. Qed.

Lemma prefix_at_record_boundary_witness :
  compress_text_with_dictionary [97; 32; 98] []
    = Ok [0; 1; 97; 2; 1; 32; 0; 1; 98] /\
  exists recs : list bytes,
    Forall2 (fun token rec => record_of [] token = Ok rec)
            (PyStr.findall [97; 32; 98]) recs /\
    [0; 1; 97; 2; 1; 32; 0; 1; 98]
      = concat (firstn 2 recs) ++ concat (skipn 2 recs) /\
    decompress_text_with_dictionary (concat (firstn 2 recs)) []
      = Some (Ok (concat (map (decoded []) (firstn 2 recs)))) /\
    decompress_text_with_dictionary [0; 1; 97; 2; 1; 32; 0; 1; 98] []
      = Some (Ok (concat (map (decoded []) (firstn 2 recs))
                  ++ concat (map (decoded []) (skipn 2 recs)))).
Proof.
  assert (E : compress_text_with_dictionary [97; 32; 98] []
              = Ok [0; 1; 97; 2; 1; 32; 0; 1; 98]) by reflexivity.
  split; [exact E|].
  exact (prefix_at_record_boundary [97; 32; 98] [] [] _ 2 E).
Defined.

(** The scenario of the specification: the dictionary the/quick/fox and
    the text "the quick brown fox". *)
Example the_quick_brown_fox :
  let dictionary :=
    load_dictionary_from_file
      [[116; 104; 101; 10]; [113; 117; 105; 99; 107; 10]; [102; 111; 120; 10]]
      max_lines_default in
  let text := [116; 104; 101; 32; 113; 117; 105; 99; 107; 32;
               98; 114; 111; 119; 110; 32; 102; 111; 120] in
  compress_text_with_dictionary text dictionary
    = Ok [1; 0; 0; 0; 2; 1; 32; 1; 0; 0; 1; 2; 1; 32;
          0; 5; 98; 114; 111; 119; 110; 2; 1; 32; 1; 0; 0; 2] /\
  decompress_text_with_dictionary
    [1; 0; 0; 0; 2; 1; 32; 1; 0; 0; 1; 2; 1; 32;
     0; 5; 98; 114; 111; 119; 110; 2; 1; 32; 1; 0; 0; 2] dictionary
    = Some (Ok text).
Proof. split; reflexivity. Qed.

End Runs.


(** * Further properties of the program *)

(** ** The id field *)

Section IdField.

Lemma int_to_3bytes_arith (v : Z) :
  int_to_3bytes v = Ok [(v / 65536) mod 256; (v / 256) mod 256; v mod 256].
Proof.
  rewrite int_to_3bytes_ok. change 0xFF with (Z.ones 8).
  rewrite !Z.land_ones, !Z.shiftr_div_pow2 by lia. reflexivity.
Qed.

Lemma testbit_byte_high (b n : Z) :
  is_byte b = true -> 8 <= n -> Z.testbit b n = false.
Proof.
  intros Hb Hn. apply is_byte_iff in Hb.
  destruct (Z.eq_dec b 0) as [->|NE]; [apply Z.bits_0|].
  apply Z.bits_above_log2; [lia|].
  assert (Z.log2 b < 8) by (apply Z.log2_lt_pow2; simpl; lia). lia.
Qed.

Lemma lor_disjoint_add (x y : Z) : Z.land x y = 0 -> Z.lor x y = x + y.
Proof. intros H. pose proof (Z.add_lor_land x y) as E. rewrite H in E. lia. Qed.

(** The id read from three bytes is their big-endian value. *)
Lemma id_of_bytes_value (b0 b1 b2 : Z) :
  is_byte b0 = true -> is_byte b1 = true -> is_byte b2 = true ->
  id_of_bytes b0 b1 b2 = b0 * 65536 + b1 * 256 + b2.
Proof.
  intros H0 H1 H2. unfold id_of_bytes.
  assert (E1 : Z.lor (Z.shiftl b0 16) (Z.shiftl b1 8)
               = b0 * 65536 + b1 * 256).
  { rewrite lor_disjoint_add; [now rewrite !Z.shiftl_mul_pow2 by lia|].
    apply Z.bits_inj'. intros n Hn. rewrite Z.land_spec, Z.bits_0.
    destruct (Z_lt_le_dec n 16).
    - now rewrite (Z.shiftl_spec_low b0) by lia.
    - rewrite (Z.shiftl_spec b1) by lia.
      rewrite (testbit_byte_high b1) by (auto; lia). apply andb_false_r. }
  rewrite lor_disjoint_add; [now rewrite E1|].
  apply Z.bits_inj'. intros n Hn. rewrite Z.land_spec, Z.bits_0.
  destruct (Z_lt_le_dec n 8).
  - rewrite Z.lor_spec, !Z.shiftl_spec_low by lia. reflexivity.
  - rewrite (testbit_byte_high b2) by (auto; lia). apply andb_false_r.
Qed.

Lemma mod_256_byte (x : Z) : is_byte (x mod 256) = true.
Proof. apply is_byte_iff. apply Z.mod_pos_bound. lia. Qed.

(** X1: [int_to_3bytes] never fails: for every integer, also one of 24
    bits or more and a negative one, it gives three bytes, and
    [bytes3_to_int] reads from them the value modulo [2^24]. *)
Theorem int_to_3bytes_wraps :
  forall v : Z,
    exists b0 b1 b2 : Z,
      int_to_3bytes v = Ok [b0; b1; b2] /\
      forallb is_byte [b0; b1; b2] = true /\
      bytes3_to_int [b0; b1; b2] = Ok (v mod 2 ^ 24).
Proof.
  intros v.
  exists ((v / 65536) mod 256), ((v / 256) mod 256), (v mod 256).
  split; [apply int_to_3bytes_arith|]. split.
  - cbn [forallb]. now rewrite !mod_256_byte.
  - change (bytes3_to_int [(v / 65536) mod 256; (v / 256) mod 256; v mod 256])
      with (Ok (id_of_bytes ((v / 65536) mod 256) ((v / 256) mod 256)
                            (v mod 256))).
    rewrite id_of_bytes_value by apply mod_256_byte.
    f_equal. change (2 ^ 24) with 16777216.
    Z.div_mod_to_equations. lia.
Qed.

(** X2: three bytes are read as their big-endian value, which is below
    [2^24], and [int_to_3bytes] gives the same three bytes back. *)
Theorem bytes3_to_int_int_to_3bytes :
  forall b0 b1 b2 : Z,
    is_byte b0 = true -> is_byte b1 = true -> is_byte b2 = true ->
    bytes3_to_int [b0; b1; b2] = Ok (b0 * 65536 + b1 * 256 + b2) /\
    0 <= b0 * 65536 + b1 * 256 + b2 < 2 ^ 24 /\
    int_to_3bytes (b0 * 65536 + b1 * 256 + b2) = Ok [b0; b1; b2].
Proof.
  intros b0 b1 b2 H0 H1 H2.
  pose proof (id_of_bytes_value b0 b1 b2 H0 H1 H2) as E.
  apply is_byte_iff in H0, H1, H2.
  split; [|split].
  - change (bytes3_to_int [b0; b1; b2]) with (Ok (id_of_bytes b0 b1 b2)).
    now rewrite E.
  - change (2 ^ 24) with 16777216. lia.
  - rewrite int_to_3bytes_arith. do 2 f_equal; [|f_equal; [|f_equal]];
      Z.div_mod_to_equations; lia.
Qed.

Lemma bytes3_to_int_int_to_3bytes_witness :
  is_byte 1 = true /\ is_byte 2 = true /\ is_byte 255 = true /\
  bytes3_to_int [1; 2; 255] = Ok (1 * 65536 + 2 * 256 + 255) /\
  0 <= 1 * 65536 + 2 * 256 + 255 < 2 ^ 24 /\
  int_to_3bytes (1 * 65536 + 2 * 256 + 255) = Ok [1; 2; 255].
Proof.
  split; [reflexivity|]. split; [reflexivity|]. split; [reflexivity|].
  exact (bytes3_to_int_int_to_3bytes 1 2 255 eq_refl eq_refl eq_refl).
Defined.

End IdField.

(** ** The byte complement *)

Section Complement.

Lemma lxor_255_complement (b : Z) :
  is_byte b = true -> Z.lxor b 0xFF = 255 - b.
Proof.
  intros Hb.
  rewrite (Z.sub_nocarry_ldiff 255 b).
  - apply Z.bits_inj'. intros n Hn.
    rewrite Z.lxor_spec, Z.ldiff_spec, testbit_255 by lia.
    destruct (Z.ltb_spec n 8).
    + now destruct (Z.testbit b n).
    + now rewrite (testbit_byte_high b n) by (auto; lia).
  - apply Z.bits_inj'. intros n Hn.
    rewrite Z.ldiff_spec, Z.bits_0, testbit_255 by lia.
    destruct (Z.ltb_spec n 8).
    + apply andb_false_r.
    + now rewrite (testbit_byte_high b n) by (auto; lia).
Qed.

(** X3: on a byte sequence [transform_with_pattern] gives, byte for byte,
    the complement [255 - b]; the result has the length of the input. *)
Theorem transform_with_pattern_complement :
  forall data : bytes,
    forallb is_byte data = true ->
    transform_with_pattern data = Ok (map (fun b => 255 - b) data) /\
    length (map (fun b => 255 - b) data) = length data.
Proof.
  intros data Hd. split; [|apply length_map].
  unfold transform_with_pattern.
  rewrite (bytes_of_ok _ (transform_bytes _ Hd)). f_equal.
  induction data as [|b data IH]; [reflexivity|].
  cbn [forallb] in Hd. apply andb_true_iff in Hd. destruct Hd as [Hb Hd].
  cbn [map]. now rewrite lxor_255_complement, IH.
Qed.

Lemma transform_with_pattern_complement_witness :
  forallb is_byte [0; 65; 255] = true /\
  transform_with_pattern [0; 65; 255]
    = Ok (map (fun b => 255 - b) [0; 65; 255]) /\
  length (map (fun b => 255 - b) [0; 65; 255]) = length [0; 65; 255].
Proof.
  split; [reflexivity|].
  exact (transform_with_pattern_complement [0; 65; 255] eq_refl).
Defined.

End Complement.

(** ** The loaded dictionary *)

Section DictKeys.
Variables K V : Type.
Variable K_eq_dec : forall x y : K, {x = y} + {x <> y}.

Lemma set_keys (d : PyDict.dict K V) (k k' : K) (v : V) :
  In k' (map fst (PyDict.set K_eq_dec d k v)) -> k' = k \/ In k' (map fst d).
Proof.
  induction d as [|[k0 v0] d IH]; simpl.
  - intros [<- | []]; auto.
  - destruct (K_eq_dec k0 k) as [->|NE]; simpl.
    + intros [<- | H]; auto.
    + intros [<- | H]; auto. destruct (IH H); auto.
Qed.

(** An assignment keeps the keys of a dictionary distinct. *)
Lemma set_NoDup (d : PyDict.dict K V) (k : K) (v : V) :
  NoDup (map fst d) -> NoDup (map fst (PyDict.set K_eq_dec d k v)).
Proof.
  induction d as [|[k0 v0] d IH]; simpl; intros Hnd.
  - constructor; [intros [] | constructor].
  - inversion Hnd as [|? ? Hnotin Hnd']; subst.
    destruct (K_eq_dec k0 k) as [->|NE]; simpl.
    + now constructor.
    + constructor; auto. intros Hin. apply set_keys in Hin.
      destruct Hin as [-> | Hin]; [congruence | contradiction].
Qed.

Lemma in_get (d : PyDict.dict K V) (k : K) (v : V) :
  NoDup (map fst d) -> In (k, v) d -> PyDict.get K_eq_dec d k = Some v.
Proof.
  induction d as [|[k0 v0] d IH]; simpl; intros Hnd Hin; [destruct Hin|].
  inversion Hnd as [|? ? Hnotin Hnd']; subst.
  destruct Hin as [[= -> ->] | Hin].
  - destruct (K_eq_dec k k); congruence.
  - destruct (K_eq_dec k0 k) as [->|NE]; auto.
    exfalso. apply Hnotin. change k with (fst (k, v)). now apply in_map.
Qed.
End DictKeys.

Section LoadedDictionary.
Variable max_lines : Z.

Lemma load_loop_NoDup (lines : list str) :
  forall (idx : Z) (d : word_dict),
    NoDup (map fst d) -> NoDup (map fst (load_loop lines idx max_lines d)).
Proof.
  induction lines as [|line lines IH]; intros idx d Hnd; [exact Hnd|].
  destruct (Z_lt_le_dec idx max_lines) as [Hlt|Hge];
    [|now rewrite load_loop_stop].
  rewrite load_loop_cons by auto. apply IH.
  destruct (first_word line); auto. now apply set_NoDup.
Qed.

Lemma load_NoDup (lines : list str) :
  NoDup (map fst (load_dictionary_from_file lines max_lines)).
Proof. apply load_loop_NoDup. constructor. Qed.

(** Where an entry of the result comes from: it was there before and no
    line carries the word, or it is the rank of the last line that
    carries the word. *)
Lemma load_loop_get_inv (w : str) (id : Z) (lines : list str) :
  forall (idx : Z) (d : word_dict),
    PyDict.get str_eq_dec (load_loop lines idx max_lines d) w = Some id ->
    (PyDict.get str_eq_dec d w = Some id /\
     forall n line, nth_error lines n = Some line ->
                    idx + Z.of_nat n < max_lines ->
                    first_word line <> Some w) \/
    exists (n : nat) (line : str),
      id = idx + Z.of_nat n /\ id < max_lines /\
      nth_error lines n = Some line /\ first_word line = Some w /\
      forall m line', (n < m)%nat -> nth_error lines m = Some line' ->
                      idx + Z.of_nat m < max_lines ->
                      first_word line' <> Some w.
Proof.
  induction lines as [|line lines IH]; intros idx d Hget.
  - left. split; [exact Hget|]. intros [|n] l Hn; discriminate.
  - destruct (Z_lt_le_dec idx max_lines) as [Hlt|Hge].
    + rewrite load_loop_cons in Hget by auto.
      destruct (IH _ _ Hget)
        as [[Hd Hno] | (n & l & -> & Hmax & Hn & Hw & Hlast)].
      * destruct (first_word line) as [w0|] eqn:E.
        -- destruct (str_eq_dec w0 w) as [->|NE].
           ++ rewrite get_set_same in Hd. injection Hd as <-.
              right. exists 0%nat, line. cbn [nth_error Z.of_nat].
              repeat split; auto; try lia.
              intros [|m] l' Hm Hnm Hmax'; [lia|].
              apply (Hno m l' Hnm). lia.
           ++ rewrite get_set_other in Hd by auto.
              left. split; [exact Hd|].
              intros [|n] l Hn Hmax'.
              ** injection Hn as <-. congruence.
              ** apply (Hno n l Hn). lia.
        -- left. split; [exact Hd|].
           intros [|n] l Hn Hmax'.
           ** injection Hn as <-. congruence.
           ** apply (Hno n l Hn). lia.
      * right. exists (S n), l. repeat split; auto; try lia.
        intros [|m] l' Hlt' Hm Hmax'; [lia|].
        apply (Hlast m l'); auto; lia.
    + rewrite load_loop_stop in Hget by auto.
      left. split; [exact Hget|]. intros n l Hn Hmax'. lia.
Qed.

(** X4: the loaded dictionary maps a word to an id exactly when the id is
    the rank (counting every line, also the blank ones) of the last line
    below [max_lines] whose first field is the word. *)
Theorem load_dictionary_entries :
  forall (lines : list str) (w : str) (id : Z),
    PyDict.get str_eq_dec (load_dictionary_from_file lines max_lines) w
      = Some id
    <->
    (0 <= id < max_lines /\ word_at lines id = Some w /\
     forall j, id < j < max_lines -> word_at lines j <> Some w).
Proof.
  intros lines w id. split.
  - intros Hget. apply load_loop_get_inv in Hget.
    destruct Hget as [[Hd _] | (n & line & -> & Hmax & Hn & Hw & Hlast)];
      [discriminate|].
    cbn [Z.add]. split; [lia|]. split.
    + now rewrite (nth_word_at _ _ _ Hn).
    + intros j Hj Hj'.
      destruct (word_at_nth _ _ _ Hj') as (_ & l' & Hn' & Hw').
      apply (Hlast (Z.to_nat j) l'); auto; lia.
  - intros (Hid & Hw & Hlast).
    destruct (word_at_nth _ _ _ Hw) as (_ & line & Hn & Hfw).
    unfold load_dictionary_from_file.
    rewrite (load_loop_last_occurrence max_lines w lines 0 []
               (Z.to_nat id) line); auto.
    + f_equal. lia.
    + lia.
    + intros m l' Hlt Hm Hmax'.
      rewrite <- (nth_word_at _ _ _ Hm). apply Hlast. lia.
Qed.

Lemma reverse_fold_get (items : list (str * Z)) (id : Z) (w : str) :
  forall rd0 : id_dict,
    PyDict.get Z.eq_dec (fold_left rev_step items rd0) id = Some w ->
    PyDict.get Z.eq_dec rd0 id = Some w \/ In (w, id) items.
Proof.
  induction items as [|[w0 v0] items IH]; intros rd0 H; simpl in *; auto.
  destruct (IH _ H) as [H0 | Hin]; auto.
  unfold rev_step in H0; simpl in H0.
  destruct (Z.eq_dec v0 id) as [->|NE].
  - rewrite get_set_same in H0. injection H0 as ->. auto.
  - rewrite get_set_other in H0 by auto. auto.
Qed.

(** X5: for a loaded dictionary, whatever [max_lines] is, the reversed
    dictionary built by the decoder is its exact inverse: an id leads to a
    word exactly when the word has that id. No two words share an id. *)
Theorem reverse_dict_inverts_loaded :
  forall (lines : list str) (w : str) (id : Z),
    PyDict.get Z.eq_dec
      (reverse_of (load_dictionary_from_file lines max_lines)) id = Some w
    <->
    PyDict.get str_eq_dec (load_dictionary_from_file lines max_lines) w
      = Some id.
Proof.
  intros lines w id. split.
  - intros H. apply reverse_fold_get in H.
    destruct H as [H | H]; [discriminate|].
    apply in_get; auto. apply load_NoDup.
  - intros H. apply get_in in H. apply reverse_of_unique; auto.
    intros w' Hin. apply load_items in Hin. apply load_items in H.
    destruct Hin as [_ Hw'], H as [_ Hw]. congruence.
Qed.

Lemma load_loop_beyond_cap (lines more : list str) :
  forall (idx : Z) (d : word_dict),
    max_lines <= idx + Z.of_nat (length lines) ->
    load_loop (lines ++ more) idx max_lines d
      = load_loop lines idx max_lines d.
Proof.
  induction lines as [|line lines IH]; intros idx d Hcap.
  - simpl in Hcap. cbn [app]. rewrite !load_loop_stop by lia. reflexivity.
  - cbn [app]. destruct (Z_lt_le_dec idx max_lines) as [Hlt|Hge];
      [|now rewrite !load_loop_stop].
    rewrite !load_loop_cons by auto. apply IH.
    cbn [length] in Hcap. lia.
Qed.

(** X6: the lines of rank [max_lines] and above are not read: a word list
    of at least [max_lines] lines gives the same dictionary whatever
    follows it. *)
Theorem load_dictionary_ignores_lines_beyond_cap :
  forall lines more : list str,
    max_lines <= Z.of_nat (length lines) ->
    load_dictionary_from_file (lines ++ more) max_lines
      = load_dictionary_from_file lines max_lines.
Proof.
  intros lines more Hcap. apply load_loop_beyond_cap. lia.
Qed.

End LoadedDictionary.

Lemma load_dictionary_ignores_lines_beyond_cap_witness :
  2 <= Z.of_nat (length [[97; 10]; [98; 10]]) /\
  load_dictionary_from_file ([[97; 10]; [98; 10]] ++ [[99; 10]; [97; 10]]) 2
    = load_dictionary_from_file [[97; 10]; [98; 10]] 2.
Proof.
  assert (H : 2 <= Z.of_nat (length [[97; 10]; [98; 10]]))
    by (apply Z.leb_le; reflexivity).
  split; [exact H|].
  exact (load_dictionary_ignores_lines_beyond_cap 2
           [[97; 10]; [98; 10]] [[99; 10]; [97; 10]] H).
Defined.

(** ** More on the tokeniser *)

Section TokeniserComposition.
Import PyStr.

(** With enough fuel the scan does not depend on the fuel. *)
Lemma findall_from_fuel (f1 : nat) :
  forall (f2 : nat) (text : str),
    (length text <= f1)%nat -> (length text <= f2)%nat ->
    findall_from f1 text = findall_from f2 text.
Proof.
  induction f1 as [|f1 IH]; intros [|f2] [|c s] H1 H2; simpl in H1, H2;
    try reflexivity; try lia.
  cbn [findall_from].
  destruct (match_at_cons c s) as (m & r & E & Hs & Hrun).
  rewrite E. f_equal.
  assert (Hr : (length r < length (c :: s))%nat).
  { rewrite Hs, length_app. destruct Hrun as [Hne _].
    destruct m; [congruence|]. simpl. lia. }
  simpl in Hr. apply IH; lia.
Qed.

Lemma findall_cons (c : Z) (s m r : str) :
  match_at (c :: s) = Some (m, r) -> c :: s = m ++ r -> m <> [] ->
  findall (c :: s) = m :: findall r.
Proof.
  intros E Hs Hne. unfold findall. cbn [length findall_from]. rewrite E.
  f_equal. apply findall_from_fuel; auto.
  apply (f_equal (@length Z)) in Hs. rewrite length_app in Hs.
  destruct m; [congruence|]. simpl in Hs. lia.
Qed.

Lemma span_all (p : Z -> bool) (m rest : str) :
  forallb p m = true ->
  match rest with
  | c :: _ => p c = false
  | [] => True
  end ->
  span p (m ++ rest) = (m, rest).
Proof.
  intros Hall Hrest. induction m as [|c m IH]; cbn [app].
  - destruct rest as [|c rest]; [reflexivity|]. cbn [span]. now rewrite Hrest.
  - cbn [forallb] in Hall. apply andb_true_iff in Hall. destruct Hall as [Hc Hm].
    cbn [span]. rewrite Hc, (IH Hm). reflexivity.
Qed.

Lemma forallb_last (p : Z -> bool) (m : str) (d : Z) :
  m <> [] -> forallb p m = true -> p (last m d) = true.
Proof.
  induction m as [|c m IH]; [congruence|]. intros _ Hall.
  cbn [forallb] in Hall. apply andb_true_iff in Hall. destruct Hall as [Hc Hm].
  destruct m as [|c' m]; [exact Hc|]. apply IH; [discriminate|exact Hm].
Qed.

Lemma last_app_r (m r : str) (d : Z) : r <> [] -> last (m ++ r) d = last r d.
Proof.
  intros Hr. induction m as [|c m IH]; [reflexivity|].
  cbn [app]. destruct (m ++ r) eqn:E.
  - apply app_eq_nil in E. destruct E; congruence.
  - exact IH.
Qed.

(** A match at the start of a text is not changed by what follows the
    text, where the text goes on after the match or the class changes at
    its end. *)
Lemma match_at_app (text m r t2 : str) (c2 : Z) (s2 : str) :
  match_at text = Some (m, r) -> text = m ++ r -> run m ->
  t2 = c2 :: s2 ->
  isspace_char (last text 0) = negb (isspace_char c2) ->
  match_at (text ++ t2) = Some (m, r ++ t2).
Proof.
  intros E Hs Hrun -> Hlast.
  pose proof (match_at_rest _ _ _ E) as Hrest.
  destruct Hrun as [Hne Hclass].
  assert (Hstop : forall p, forallb p m = true ->
            (p = isspace_char \/ p = nonspace_char) ->
            match r ++ c2 :: s2 with
            | c :: _ => p c = false
            | [] => True
            end).
  { intros p Hp Hpp. destruct r as [|c r]; cbn [app].
    - rewrite app_nil_r in Hs. subst text.
      pose proof (forallb_last p m 0 Hne Hp) as Hl.
      destruct Hpp as [-> | ->].
      + rewrite Hl in Hlast. symmetry in Hlast.
        now apply negb_true_iff in Hlast.
      + unfold nonspace_char in *. apply negb_true_iff in Hl.
        rewrite Hl in Hlast. symmetry in Hlast.
        apply negb_false_iff in Hlast. now rewrite Hlast.
    - destruct m as [|c0 m]; [congruence|].
      pose proof (forallb_last p (c0 :: m) 0 Hne Hp) as Hl.
      destruct Hpp as [-> | ->].
      + assert (Hsp : isspace (c0 :: m) = true) by (cbn [isspace]; exact Hp).
        rewrite Hsp in Hrest. symmetry in Hrest.
        now apply negb_true_iff in Hrest.
      + assert (Hsp : isspace (c0 :: m) = false).
        { cbn [isspace forallb]. cbn [forallb] in Hp.
          apply andb_true_iff in Hp. destruct Hp as [Hc0 _].
          unfold nonspace_char in Hc0. apply negb_true_iff in Hc0.
          now rewrite Hc0. }
        rewrite Hsp in Hrest. symmetry in Hrest.
        apply negb_false_iff in Hrest. unfold nonspace_char.
        now rewrite Hrest. }
  subst text. rewrite <- app_assoc. unfold match_at.
  destruct m as [|c0 m]; [congruence|].
  destruct Hclass as [Hsp | Hnsp].
  - assert (Hc0 : nonspace_char c0 = false).
    { cbn [forallb] in Hsp. apply andb_true_iff in Hsp.
      destruct Hsp as [Hc0 _]. unfold nonspace_char. now rewrite Hc0. }
    cbn [app]. rewrite (span_nil nonspace_char c0 _ Hc0).
    change (c0 :: m ++ r ++ c2 :: s2) with ((c0 :: m) ++ r ++ c2 :: s2).
    rewrite (span_all isspace_char (c0 :: m) _ Hsp (Hstop _ Hsp (or_introl eq_refl))).
    reflexivity.
  - rewrite (span_all nonspace_char (c0 :: m) _ Hnsp
               (Hstop _ Hnsp (or_intror eq_refl))).
    reflexivity.
Qed.

Lemma findall_app_class_change (n : nat) (c2 : Z) (s2 : str) :
  forall t1 : str,
    (length t1 <= n)%nat -> t1 <> [] ->
    isspace_char (last t1 0) = negb (isspace_char c2) ->
    findall (t1 ++ c2 :: s2) = findall t1 ++ findall (c2 :: s2).
Proof.
  induction n as [|n IH]; intros [|c s] Hlen Hne Hlast;
    try congruence; simpl in Hlen; try lia.
  destruct (match_at_cons c s) as (m & r & E & Hs & Hrun).
  pose proof (match_at_app (c :: s) m r (c2 :: s2) c2 s2 E Hs Hrun eq_refl Hlast)
    as E2.
  rewrite (findall_cons c s m r E Hs (proj1 Hrun)).
  cbn [app] in E2 |- *.
  rewrite (findall_cons c (s ++ c2 :: s2) m (r ++ c2 :: s2) E2).
  - cbn [app]. f_equal.
    destruct r as [|c' r']; [reflexivity|].
    apply IH.
    + apply (f_equal (@length Z)) in Hs. rewrite length_app in Hs.
      destruct Hrun as [Hm _]. destruct m; [congruence|].
      simpl in Hs |- *. lia.
    + discriminate.
    + rewrite Hs in Hlast. rewrite last_app_r in Hlast by discriminate.
      exact Hlast.
  - change (c :: s ++ c2 :: s2) with ((c :: s) ++ c2 :: s2).
    now rewrite Hs, app_assoc.
  - exact (proj1 Hrun).
Qed.

End TokeniserComposition.

(** ** More on the encoder *)

Section EncoderFacts.
Variable dictionary : word_dict.

Lemma findall_run (token : str) :
  PyStr.run token -> PyStr.findall token = [token].
Proof.
  intros Hrun. destruct token as [|c m]; [destruct Hrun; congruence|].
  assert (E : PyStr.match_at (c :: m) = Some (c :: m, [])).
  { unfold PyStr.match_at. destruct Hrun as [_ [Hsp | Hnsp]].
    - assert (Hc : PyStr.nonspace_char c = false).
      { cbn [forallb] in Hsp. apply andb_true_iff in Hsp.
        destruct Hsp as [Hc _]. unfold PyStr.nonspace_char. now rewrite Hc. }
      rewrite (span_nil PyStr.nonspace_char c m Hc).
      rewrite <- (app_nil_r (c :: m)) at 1.
      now rewrite (span_all PyStr.isspace_char (c :: m) [] Hsp I).
    - rewrite <- (app_nil_r (c :: m)) at 1.
      now rewrite (span_all PyStr.nonspace_char (c :: m) [] Hnsp I). }
  rewrite (findall_cons c m (c :: m) [] E).
  - reflexivity.
  - now rewrite app_nil_r.
  - discriminate.
Qed.

Lemma encode_char_bytes (c : Z) (bs : bytes) :
  Utf8.encode_char c = Some bs -> forallb is_byte bs = true.
Proof.
  unfold Utf8.encode_char, Utf8.is_surrogate.
  destruct (Z.ltb_spec c 0); [discriminate|].
  assert (Hb : forall x, 0 <= x < 256 -> is_byte x = true)
    by (intros x Hx; now apply is_byte_iff).
  destruct (Z.ltb_spec c 0x80).
  { intros [= <-]. cbn [forallb]. rewrite Hb by lia. reflexivity. }
  pose proof (Z.div_mod c 64 ltac:(lia)) as Hc0.
  pose proof (Z.mod_pos_bound c 64 ltac:(lia)) as Hr0.
  pose proof (Z.div_mod (c / 64) 64 ltac:(lia)) as Hc1.
  pose proof (Z.mod_pos_bound (c / 64) 64 ltac:(lia)) as Hr1.
  pose proof (Z.div_mod (c / 64 / 64) 64 ltac:(lia)) as Hc2.
  pose proof (Z.mod_pos_bound (c / 64 / 64) 64 ltac:(lia)) as Hr2.
  rewrite div_262144, div_4096.
  remember (0xC0 + c / 64) as lead2 eqn:El2.
  remember (0xE0 + c / 64 / 64) as lead3 eqn:El3.
  remember (0xF0 + c / 64 / 64 / 64) as lead4 eqn:El4.
  remember (0x80 + c mod 64) as t0 eqn:Et0.
  remember (0x80 + (c / 64) mod 64) as t1 eqn:Et1.
  remember (0x80 + (c / 64 / 64) mod 64) as t2 eqn:Et2.
  destruct (Z.ltb_spec c 0x800).
  { intros [= <-]. cbn [forallb]. rewrite !Hb by lia. reflexivity. }
  destruct (Z.leb_spec 0xD800 c), (Z.leb_spec c 0xDFFF); cbn [andb];
    try discriminate;
    (destruct (Z.ltb_spec c 0x10000);
     [|destruct (Z.ltb_spec c 0x110000); [|discriminate]]);
    intros [= <-]; cbn [forallb]; rewrite !Hb by lia; reflexivity.
Qed.

Lemma encode_ignore_bytes (s : str) :
  forallb is_byte (Utf8.encode_ignore s) = true.
Proof.
  induction s as [|c s IH]; [reflexivity|]. cbn [Utf8.encode_ignore].
  destruct (Utf8.encode_char c) as [bs|] eqn:E; [|exact IH].
  rewrite forallb_app, IH, (encode_char_bytes _ _ E). reflexivity.
Qed.

(** Decoding what the ignoring encoder wrote gives the characters that
    have an encoding. *)
Lemma decode_encode_ignore (s : str) :
  Utf8.decode_ignore (Utf8.encode_ignore s) = filter encodable s.
Proof.
  induction s as [|c s IH]; [reflexivity|].
  cbn [Utf8.encode_ignore filter]. unfold encodable at 1.
  destruct (Utf8.encode_char c) as [bs|] eqn:E; [|exact IH].
  rewrite (decode_encode_char _ _ _ E). now f_equal.
Qed.

Lemma whitespace_encode_ignore (token : str) :
  PyStr.isspace token = true ->
  Utf8.encode_strict token = Ok (Utf8.encode_ignore token).
Proof.
  intros Hs.
  destruct (whitespace_encodable _ (isspace_all _ Hs)) as [encoded He].
  now rewrite (encode_ignore_strict _ _ He).
Qed.

Lemma leb_is_byte_length (n : nat) :
  is_byte (Z.of_nat n) = (n <=? 255)%nat.
Proof.
  unfold is_byte.
  destruct (Nat.leb_spec n 255), (Z.leb_spec 0 (Z.of_nat n)),
           (Z.ltb_spec (Z.of_nat n) 256); try reflexivity; lia.
Qed.

(** The record of a token, in full. *)
Lemma record_of_cases (token : str) :
  record_of dictionary token =
    if literal_fits dictionary token then
      if PyStr.isspace token then
        Ok (2 :: Z.of_nat (length (Utf8.encode_ignore token))
              :: Utf8.encode_ignore token)
      else
        match PyDict.get str_eq_dec dictionary token with
        | Some code =>
            Ok [1; Z.land (Z.shiftr code 16) 0xFF;
                Z.land (Z.shiftr code 8) 0xFF; Z.land code 0xFF]
        | None =>
            Ok (0 :: Z.of_nat (length (Utf8.encode_ignore token))
                  :: Utf8.encode_ignore token)
        end
    else Raise ValueError.
Proof.
  unfold literal_fits. destruct (PyStr.isspace token) eqn:Hs.
  - rewrite (record_of_space dictionary _ _ Hs (whitespace_encode_ignore _ Hs)).
    now rewrite leb_is_byte_length.
  - destruct (PyDict.get str_eq_dec dictionary token) as [code|] eqn:Hg.
    + apply record_of_known; auto.
    + rewrite (record_of_unknown dictionary _ Hs Hg).
      now rewrite leb_is_byte_length.
Qed.

Lemma record_of_length (token : str) (rec : bytes) :
  record_of dictionary token = Ok rec ->
  length rec = record_length dictionary token /\ forallb is_byte rec = true.
Proof.
  rewrite record_of_cases. unfold record_length, literal_fits.
  destruct (PyStr.isspace token).
  - destruct (length (Utf8.encode_ignore token) <=? 255)%nat eqn:L;
      [|discriminate].
    intros [= <-]. split; [reflexivity|].
    cbn [forallb]. rewrite leb_is_byte_length, L, encode_ignore_bytes.
    reflexivity.
  - destruct (PyDict.get str_eq_dec dictionary token) as [code|].
    + intros [= <-]. split; [reflexivity|].
      cbn [forallb]. now rewrite !land_255_byte.
    + destruct (length (Utf8.encode_ignore token) <=? 255)%nat eqn:L;
        [|discriminate].
      intros [= <-]. split; [reflexivity|].
      cbn [forallb]. rewrite leb_is_byte_length, L, encode_ignore_bytes.
      reflexivity.
Qed.

Lemma encode_tokens_fits (tokens : list str) :
  forall result : bytes,
    if forallb (literal_fits dictionary) tokens
    then exists data, encode_tokens dictionary tokens result = Ok data
    else encode_tokens dictionary tokens result = Raise ValueError.
Proof.
  induction tokens as [|token tokens IH]; intros result; cbn [forallb].
  - eexists; reflexivity.
  - cbn [encode_tokens]. rewrite encode_token_record, record_of_cases.
    destruct (literal_fits dictionary token); cbn [andb]; [|reflexivity].
    destruct (PyStr.isspace token);
      [|destruct (PyDict.get str_eq_dec dictionary token)];
      cbn [bind]; apply IH.
Qed.

(** X7: [compress_text_with_dictionary] returns a byte stream exactly when
    every whitespace run and every word absent from the dictionary has an
    encoding of at most 255 bytes (dictionary words may be of any length);
    otherwise it raises [ValueError], and it raises nothing else. *)
Theorem compress_succeeds_iff_literals_fit :
  forall text : str,
    if forallb (literal_fits dictionary) (PyStr.findall text)
    then exists data, compress_text_with_dictionary text dictionary = Ok data
    else compress_text_with_dictionary text dictionary = Raise ValueError.
Proof. intros text. apply encode_tokens_fits. Qed.

Lemma records_lengths (tokens : list str) (recs : list bytes) :
  Forall2 (fun token rec => record_of dictionary token = Ok rec) tokens recs ->
  length (concat recs) = list_sum (map (record_length dictionary) tokens) /\
  forallb is_byte (concat recs) = true.
Proof.
  induction 1 as [|token rec tokens recs Hrec _ [IHl IHb]]; [split; reflexivity|].
  destruct (record_of_length _ _ Hrec) as [Hl Hb].
  cbn [concat map list_sum]. rewrite length_app, forallb_app, Hl, IHl, Hb, IHb.
  split; reflexivity.
Qed.

(** X8: the output of the encoder is a sequence of bytes (every element is
    in [0, 255]), and its length is the sum over the tokens of 4 for a
    dictionary word and of 2 plus the length of the UTF-8 encoding for a
    whitespace run or an unknown word. *)
Theorem compress_output_bytes_and_length :
  forall (text : str) (data : bytes),
    compress_text_with_dictionary text dictionary = Ok data ->
    forallb is_byte data = true /\
    length data
      = list_sum (map (record_length dictionary) (PyStr.findall text)).
Proof.
  intros text data E.
  destruct (encode_tokens_records dictionary _ _ _ E) as (recs & Hall & ->).
  destruct (records_lengths _ _ Hall) as [Hl Hb]. cbn [app]. auto.
Qed.

(** X9: encoding composes over a change of class: where a text ends in a
    character of one class and the next text starts with a character of
    the other, the tokens of the concatenation are the tokens of the two
    texts, and its encoding is the concatenation of the two encodings. *)
Theorem compress_app_at_class_change :
  forall (s1 : str) (c1 c2 : Z) (s2 : str) (a b : bytes),
    PyStr.isspace_char c1 = negb (PyStr.isspace_char c2) ->
    compress_text_with_dictionary (s1 ++ [c1]) dictionary = Ok a ->
    compress_text_with_dictionary (c2 :: s2) dictionary = Ok b ->
    PyStr.findall ((s1 ++ [c1]) ++ c2 :: s2)
      = PyStr.findall (s1 ++ [c1]) ++ PyStr.findall (c2 :: s2) /\
    compress_text_with_dictionary ((s1 ++ [c1]) ++ c2 :: s2) dictionary
      = Ok (a ++ b).
Proof.
  intros s1 c1 c2 s2 a b Hclass Ea Eb.
  assert (Hf : PyStr.findall ((s1 ++ [c1]) ++ c2 :: s2)
               = PyStr.findall (s1 ++ [c1]) ++ PyStr.findall (c2 :: s2)).
  { apply (findall_app_class_change (length (s1 ++ [c1]))); auto.
    - intros H. apply app_eq_nil in H. destruct H; discriminate.
    - now rewrite last_last. }
  split; [exact Hf|].
  destruct (encode_tokens_records dictionary _ _ _ Ea) as (ra & Ha & ->).
  destruct (encode_tokens_records dictionary _ _ _ Eb) as (rb & Hb & ->).
  unfold compress_text_with_dictionary. rewrite Hf.
  rewrite (records_encode_tokens dictionary _ (ra ++ rb)).
  - cbn [app]. now rewrite concat_app.
  - now apply Forall2_app.
Qed.

End EncoderFacts.

Lemma compress_output_bytes_and_length_witness :
  compress_text_with_dictionary [97; 32; 98] [([98], 5)]
    = Ok [0; 1; 97; 2; 1; 32; 1; 0; 0; 5] /\
  forallb is_byte [0; 1; 97; 2; 1; 32; 1; 0; 0; 5] = true /\
  length [0; 1; 97; 2; 1; 32; 1; 0; 0; 5]
    = list_sum (map (record_length [([98], 5)]) (PyStr.findall [97; 32; 98])).
Proof.
  assert (E : compress_text_with_dictionary [97; 32; 98] [([98], 5)]
              = Ok [0; 1; 97; 2; 1; 32; 1; 0; 0; 5]) by reflexivity.
  split; [exact E|].
  exact (compress_output_bytes_and_length [([98], 5)] [97; 32; 98] _ E).
Defined.

Lemma compress_app_at_class_change_witness :
  PyStr.isspace_char 98 = negb (PyStr.isspace_char 32) /\
  compress_text_with_dictionary ([97] ++ [98]) [] = Ok [0; 2; 97; 98] /\
  compress_text_with_dictionary (32 :: [99]) [] = Ok [2; 1; 32; 0; 1; 99] /\
  PyStr.findall (([97] ++ [98]) ++ 32 :: [99])
    = PyStr.findall ([97] ++ [98]) ++ PyStr.findall (32 :: [99]) /\
  compress_text_with_dictionary (([97] ++ [98]) ++ 32 :: [99]) []
    = Ok ([0; 2; 97; 98] ++ [2; 1; 32; 0; 1; 99]).
Proof.
  assert (H : PyStr.isspace_char 98 = negb (PyStr.isspace_char 32))
    by reflexivity.
  assert (Ea : compress_text_with_dictionary ([97] ++ [98]) []
               = Ok [0; 2; 97; 98]) by reflexivity.
  assert (Eb : compress_text_with_dictionary (32 :: [99]) []
               = Ok [2; 1; 32; 0; 1; 99]) by reflexivity.
  split; [exact H|]. split; [exact Ea|]. split; [exact Eb|].
  exact (compress_app_at_class_change [] [97] 98 32 [99] _ _ H Ea Eb).
Defined.

(** ** More on the codec *)

Section CodecFacts.

Lemma id_of_bytes_wrap (v : Z) :
  id_of_bytes (Z.land (Z.shiftr v 16) 0xFF) (Z.land (Z.shiftr v 8) 0xFF)
              (Z.land v 0xFF) = v mod 2 ^ 24.
Proof.
  rewrite id_of_bytes_value by apply land_255_byte.
  change 0xFF with (Z.ones 8).
  rewrite !Z.land_ones, !Z.shiftr_div_pow2 by lia.
  change (2 ^ 24) with 16777216. change (2 ^ 16) with 65536.
  change (2 ^ 8) with 256.
  Z.div_mod_to_equations. lia.
Qed.

(** What the decoder makes of the record of a token, with the dictionary
    of the encoder. *)
Lemma decoded_record_survives (dictionary : word_dict) (token : str)
    (rec : bytes) :
  round_trip_dict dictionary ->
  record_of dictionary token = Ok rec ->
  decoded dictionary rec = survives dictionary token.
Proof.
  intros Hd. rewrite record_of_cases. unfold survives.
  destruct (literal_fits dictionary token); [|discriminate].
  destruct (PyStr.isspace token) eqn:Hs.
  - intros [= <-].
    rewrite decoded_literal_alone by (auto; apply Nat2Z.id).
    apply decode_encode_strict. now apply whitespace_encode_ignore.
  - destruct (PyDict.get str_eq_dec dictionary token) as [code|] eqn:Hg.
    + intros [= <-]. destruct (Hd _ _ Hg) as [Hr Hrev].
      rewrite decoded_dict_ref_alone, id_of_bytes_wrap.
      rewrite Z.mod_small by lia.
      unfold PyDict.get_default. now rewrite Hrev.
    + intros [= <-].
      rewrite decoded_literal_alone by (auto; apply Nat2Z.id).
      apply decode_encode_ignore.
Qed.

(** A whitespace run and an unknown word come back from their record with
    every dictionary. *)
Lemma decoded_literal_record (dictionary dictionary' : word_dict)
    (token : str) (rec : bytes) :
  PyStr.isspace token = true \/
  PyDict.get str_eq_dec dictionary token = None ->
  fits_length_byte token ->
  record_of dictionary token = Ok rec ->
  decoded dictionary' rec = token.
Proof.
  intros Hlit (encoded & He & Hlen). rewrite record_of_cases.
  destruct (literal_fits dictionary token); [|discriminate].
  rewrite <- (encode_ignore_strict _ _ He) in He.
  destruct (PyStr.isspace token) eqn:Hs.
  - intros [= <-].
    rewrite decoded_literal_alone by (auto; apply Nat2Z.id).
    now apply decode_encode_strict.
  - destruct Hlit as [Hlit | Hg]; [discriminate|]. rewrite Hg.
    intros [= <-].
    rewrite decoded_literal_alone by (auto; apply Nat2Z.id).
    now apply decode_encode_strict.
Qed.

Lemma records_framed (dictionary : word_dict) (tokens : list str)
    (recs : list bytes) :
  Forall2 (fun token rec => record_of dictionary token = Ok rec) tokens recs ->
  Forall record_bytes recs.
Proof.
  induction 1; constructor; auto. eapply record_of_framed; eauto.
Qed.

Lemma decoded_stream (dictionary : word_dict) (recs : list bytes) :
  Forall record_bytes recs ->
  decompress_text_with_dictionary (concat recs) dictionary
    = Some (Ok (concat (map (decoded dictionary) recs))).
Proof.
  intros H. rewrite decompress_decoded. do 2 f_equal.
  rewrite <- (app_nil_r (concat recs)).
  now rewrite decoded_records, decoded_nil, app_nil_r.
Qed.

(** X10: what a round trip gives for every text that the encoder accepts,
    also one with characters that UTF-8 cannot encode (lone surrogates):
    whitespace runs and dictionary words come back as they are, and a word
    absent from the dictionary comes back without these characters, which
    [encode('utf-8', errors='ignore')] has left out. *)
Theorem decompress_compress_drops_unencodable :
  forall (lines : list str) (max_lines : Z) (text : str) (data : bytes),
    max_lines <= max_lines_default ->
    compress_text_with_dictionary text
      (load_dictionary_from_file lines max_lines) = Ok data ->
    decompress_text_with_dictionary data
      (load_dictionary_from_file lines max_lines)
      = Some (Ok (concat (map (survives
                                 (load_dictionary_from_file lines max_lines))
                              (PyStr.findall text)))).
Proof.
  intros lines max_lines text data Hmax E.
  pose proof (load_round_trip_dict lines max_lines Hmax) as Hd.
  set (dictionary := load_dictionary_from_file lines max_lines) in *.
  destruct (encode_tokens_records dictionary _ _ _ E) as (recs & Hall & ->).
  cbn [app]. rewrite (decoded_stream _ _ (records_framed _ _ _ Hall)).
  do 3 f_equal. clear E.
  induction Hall as [|token rec tokens recs Hrec _ IH]; [reflexivity|].
  cbn [map]. now rewrite (decoded_record_survives _ _ _ Hd Hrec), IH.
Qed.

(** X11: a text without dictionary words does not need the dictionary to
    come back: where no word of the text is a key of the encoder's
    dictionary and every token fits, decoding the encoder's output with any
    dictionary gives the text. *)
Theorem literal_text_decodes_with_any_dictionary :
  forall (text : str) (dictionary dictionary' : word_dict),
    (forall token, In token (PyStr.findall text) ->
                   PyStr.isspace token = true \/
                   PyDict.get str_eq_dec dictionary token = None) ->
    Forall fits_length_byte (PyStr.findall text) ->
    exists data : bytes,
      compress_text_with_dictionary text dictionary = Ok data /\
      decompress_text_with_dictionary data dictionary' = Some (Ok text).
Proof.
  intros text dictionary dictionary' Hlit Hfit.
  assert (Hrecs : exists recs,
            Forall2 (fun token rec => record_of dictionary token = Ok rec)
                    (PyStr.findall text) recs /\
            concat (map (decoded dictionary') recs)
              = concat (PyStr.findall text)).
  { induction Hfit as [|token tokens Hf _ IH].
    - exists []. split; [constructor | reflexivity].
    - destruct IH as (recs & Hall & Hcat);
        [intros t Ht; apply Hlit; now right|].
      assert (Hl := Hlit token (or_introl eq_refl)).
      destruct (record_of dictionary token) as [rec|e] eqn:Hrec.
      + exists (rec :: recs). split; [now constructor|].
        cbn [map concat].
        now rewrite (decoded_literal_record _ _ _ _ Hl Hf Hrec), Hcat.
      + exfalso. rewrite record_of_cases in Hrec.
        destruct Hf as (encoded & He & Hlen).
        rewrite <- (encode_ignore_strict _ _ He) in Hlen.
        unfold literal_fits in Hrec.
        apply Nat.leb_le in Hlen. rewrite Hlen in Hrec.
        destruct (PyStr.isspace token); [discriminate|].
        destruct (PyDict.get str_eq_dec dictionary token); discriminate. }
  destruct Hrecs as (recs & Hall & Hcat).
  exists (concat recs). split.
  - unfold compress_text_with_dictionary.
    now rewrite (records_encode_tokens dictionary _ _ Hall).
  - rewrite (decoded_stream _ _ (records_framed _ _ _ Hall)), Hcat.
    now rewrite findall_concat.
Qed.

(** X12: a dictionary word of any length, also one of more than 255
    bytes, is encoded in four bytes, and the decoder looks up its id
    modulo [2^24]: an id of [2^24] or more silently stands for another
    line of the word list. *)
Theorem dictionary_word_encodes_in_four_bytes :
  forall (word : str) (dictionary dictionary' : word_dict) (code : Z),
    word <> [] ->
    forallb PyStr.nonspace_char word = true ->
    PyDict.get str_eq_dec dictionary word = Some code ->
    exists data : bytes,
      compress_text_with_dictionary word dictionary = Ok data /\
      length data = 4%nat /\
      decompress_text_with_dictionary data dictionary'
        = Some (Ok (PyDict.get_default Z.eq_dec (reverse_of dictionary')
                      (code mod 2 ^ 24) [])).
Proof.
  intros word dictionary dictionary' code Hne Hns Hg.
  assert (Hrun : PyStr.run word) by (split; auto).
  assert (Hs : PyStr.isspace word = false).
  { destruct word as [|c w]; [congruence|].
    cbn [forallb] in Hns. apply andb_true_iff in Hns. destruct Hns as [Hc _].
    unfold PyStr.nonspace_char in Hc. apply negb_true_iff in Hc.
    cbn [PyStr.isspace forallb]. now rewrite Hc. }
  eexists. split; [|split].
  - unfold compress_text_with_dictionary. rewrite (findall_run _ Hrun).
    cbn [encode_tokens]. rewrite encode_token_record.
    rewrite (record_of_known dictionary _ _ Hs Hg). reflexivity.
  - reflexivity.
  - cbn [app]. rewrite decompress_decoded. do 2 f_equal.
    now rewrite decoded_dict_ref_alone, id_of_bytes_wrap.
Qed.

End CodecFacts.

Lemma decompress_compress_drops_unencodable_witness :
  max_lines_default <= max_lines_default /\
  compress_text_with_dictionary [97; 0xD800; 98; 32; 99]
    (load_dictionary_from_file [[99; 10]] max_lines_default)
    = Ok [0; 2; 97; 98; 2; 1; 32; 1; 0; 0; 0] /\
  decompress_text_with_dictionary [0; 2; 97; 98; 2; 1; 32; 1; 0; 0; 0]
    (load_dictionary_from_file [[99; 10]] max_lines_default)
    = Some (Ok (concat (map (survives
                  (load_dictionary_from_file [[99; 10]] max_lines_default))
                  (PyStr.findall [97; 0xD800; 98; 32; 99])))).
Proof.
  assert (Hmax : max_lines_default <= max_lines_default) by reflexivity.
  assert (E : compress_text_with_dictionary [97; 0xD800; 98; 32; 99]
                (load_dictionary_from_file [[99; 10]] max_lines_default)
              = Ok [0; 2; 97; 98; 2; 1; 32; 1; 0; 0; 0]) by reflexivity.
  split; [exact Hmax|]. split; [exact E|].
  exact (decompress_compress_drops_unencodable [[99; 10]] max_lines_default
           [97; 0xD800; 98; 32; 99] _ Hmax E).
Defined.

Lemma literal_text_decodes_with_any_dictionary_witness :
  (forall token, In token (PyStr.findall [97; 32; 98]) ->
                 PyStr.isspace token = true \/
                 PyDict.get str_eq_dec [([99], 0)] token = None) /\
  Forall fits_length_byte (PyStr.findall [97; 32; 98]) /\
  exists data : bytes,
    compress_text_with_dictionary [97; 32; 98] [([99], 0)] = Ok data /\
    decompress_text_with_dictionary data [([97], 0); ([98], 1)]
      = Some (Ok [97; 32; 98]).
Proof.
  assert (Hlit : forall token, In token (PyStr.findall [97; 32; 98]) ->
                   PyStr.isspace token = true \/
                   PyDict.get str_eq_dec [([99], 0)] token = None).
  { change (PyStr.findall [97; 32; 98]) with [[97]; [32]; [98]].
    intros token [<- | [<- | [<- | []]]];
      [right | left | right]; reflexivity. }
  assert (Hfit : Forall fits_length_byte (PyStr.findall [97; 32; 98])).
  { change (PyStr.findall [97; 32; 98]) with [[97]; [32]; [98]].
    repeat (constructor;
            [eexists; split; [reflexivity | apply Nat.leb_le; reflexivity]|]).
    constructor. }
  split; [exact Hlit|]. split; [exact Hfit|].
  exact (literal_text_decodes_with_any_dictionary [97; 32; 98] [([99], 0)]
           [([97], 0); ([98], 1)] Hlit Hfit).
Defined.

Lemma dictionary_word_encodes_in_four_bytes_witness :
  [97; 98] <> [] /\
  forallb PyStr.nonspace_char [97; 98] = true /\
  PyDict.get str_eq_dec [([97; 98], 16777217)] [97; 98] = Some 16777217 /\
  exists data : bytes,
    compress_text_with_dictionary [97; 98] [([97; 98], 16777217)] = Ok data /\
    length data = 4%nat /\
    decompress_text_with_dictionary data [([120], 1)]
      = Some (Ok (PyDict.get_default Z.eq_dec (reverse_of [([120], 1)])
                    (16777217 mod 2 ^ 24) [])).
Proof.
  assert (H1 : [97; 98] <> ([] : str)) by discriminate.
  assert (H2 : forallb PyStr.nonspace_char [97; 98] = true) by reflexivity.
  assert (H3 : PyDict.get str_eq_dec [([97; 98], 16777217)] [97; 98]
               = Some 16777217) by reflexivity.
  split; [exact H1|]. split; [exact H2|]. split; [exact H3|].
  exact (dictionary_word_encodes_in_four_bytes [97; 98]
           [([97; 98], 16777217)] [([120], 1)] 16777217 H1 H2 H3).
Defined.

(** ** The commands *)

Section Commands.
Variable paq_compress : bytes -> bytes.
Variable paq_decompress : bytes -> res bytes.

(** What is asked of the external compressor: it gives back the bytes it
    was given. *)
Hypothesis paq_round_trip :
  forall data : bytes,
    forallb is_byte data = true -> paq_decompress (paq_compress data) = Ok data.

Lemma transform_twice (data : bytes) :
  forallb is_byte data = true ->
  transform_with_pattern data = Ok (map (fun b => Z.lxor b 0xFF) data) /\
  transform_with_pattern (map (fun b => Z.lxor b 0xFF) data) = Ok data.
Proof.
  intros Hd. unfold transform_with_pattern.
  rewrite (bytes_of_ok _ (transform_bytes _ Hd)). split; [reflexivity|].
  rewrite map_map.
  rewrite (map_ext _ (fun b => b)) by (intros; apply lxor_255_twice).
  rewrite map_id. now apply bytes_of_ok.
Qed.

Lemma paq_xor_inverse (data : bytes) :
  forallb is_byte data = true ->
  exists compressed : bytes,
    compress_bytes_paq_xor paq_compress data = Ok compressed /\
    decompress_bytes_paq_xor paq_decompress compressed = Some data.
Proof.
  intros Hd. destruct (transform_twice data Hd) as [E1 E2].
  exists (paq_compress (map (fun b => Z.lxor b 0xFF) data)).
  unfold compress_bytes_paq_xor, decompress_bytes_paq_xor.
  rewrite E1. cbn [bind]. split; [reflexivity|].
  rewrite paq_round_trip by now apply transform_bytes.
  cbn [bind]. now rewrite E2.
Qed.

(** X13: with a compressor that gives back what it was given,
    [decompress_bytes_paq_xor] undoes [compress_bytes_paq_xor] on every
    byte sequence: the complement is applied once on each side. *)
Theorem paq_xor_round_trip :
  forall data : bytes,
    forallb is_byte data = true ->
    exists compressed : bytes,
      compress_bytes_paq_xor paq_compress data = Ok compressed /\
      decompress_bytes_paq_xor paq_decompress compressed = Some data.
Proof. exact paq_xor_inverse. Qed.

Lemma compress_data_bytes (text : str) (dictionary : word_dict) (data : bytes) :
  compress_text_with_dictionary text dictionary = Ok data ->
  forallb is_byte data = true.
Proof.
  intros E.
  destruct (encode_tokens_records dictionary _ _ _ E) as (recs & Hall & ->).
  now destruct (records_lengths _ _ _ Hall).
Qed.

Lemma encode_strict_app (a b : str) (x y : bytes) :
  Utf8.encode_strict a = Ok x ->
  Utf8.encode_strict b = Ok y ->
  Utf8.encode_strict (a ++ b) = Ok (x ++ y).
Proof.
  revert x. induction a as [|c a IH]; intros x Ha Hb.
  - cbn [Utf8.encode_strict] in Ha. inversion Ha. exact Hb.
  - destruct (encode_strict_cons _ _ _ Ha) as (bs & rest & Hc & Hrest & ->).
    cbn [app Utf8.encode_strict]. rewrite Hc, (IH rest Hrest Hb).
    cbn [bind]. now rewrite app_assoc.
Qed.

(** A text whose tokens have an encoding has one itself: line 129 of
    [compress_text] does not raise on it. *)
Lemma fitting_text_encodes (text : str) :
  Forall fits_length_byte (PyStr.findall text) ->
  exists encoded : bytes, Utf8.encode_strict text = Ok encoded.
Proof.
  intros Hfit.
  assert (H : exists encoded : bytes,
            Utf8.encode_strict (concat (PyStr.findall text)) = Ok encoded).
  { induction Hfit as [|token tokens (enc & Henc & _) _ (rest & Hrest)].
    - exists []. reflexivity.
    - exists (enc ++ rest). cbn [concat]. now apply encode_strict_app. }
  now rewrite findall_concat in H.
Qed.

(** X14: the two commands undo each other on a text as read. Let [text]
    be the string that [compress_text] has read from its input file in
    text mode, each of its tokens having an encoding of at most 255
    bytes. Then [compress_text] writes a compressed file, and
    [decompress_binary] on that file, with an answer that is ['yes'] once
    lower-cased and with the same dictionary file, passes that same
    string [text] to the write of its output file. *)
Theorem compress_text_decompress_binary_round_trip :
  forall (text : str) (lines : list str),
    Forall fits_length_byte (PyStr.findall text) ->
    exists compressed : bytes,
      compress_text paq_compress text (Some lines) = WroteBytes compressed /\
      decompress_binary paq_decompress compressed yes (Some lines)
        = WroteText text.
Proof.
  intros text lines Hfit.
  set (dictionary := load_dictionary_from_file lines max_lines_default).
  destruct (tokens_round_trip dictionary (PyStr.findall text)
              (load_round_trip_dict lines max_lines_default (Z.le_refl _)) Hfit)
    as (recs & Hall & Hframed & Hcat).
  assert (E : compress_text_with_dictionary text dictionary = Ok (concat recs)).
  { unfold compress_text_with_dictionary.
    now rewrite (records_encode_tokens dictionary _ _ Hall). }
  destruct (paq_xor_inverse (concat recs) (compress_data_bytes _ _ _ E))
    as (compressed & Ec & Ed).
  destruct (fitting_text_encodes text Hfit) as (hashed & Eh).
  exists compressed. unfold compress_text, decompress_binary.
  fold dictionary. rewrite Eh. cbn [bind]. rewrite E. cbn [bind].
  rewrite Ec, Ed. split; [reflexivity|].
  destruct (str_eq_dec yes yes) as [_|NE]; [|congruence].
  rewrite (decoded_stream _ _ Hframed), Hcat.
  now rewrite findall_concat, Eh.
Qed.

(** X15: the two commands undo each other on a binary file:
    [compress_binary] on the bytes of a file, followed by
    [decompress_binary] where [choice], the answer once lower-cased, is
    not ['yes'], writes the bytes of that file. An answer such as YES or
    Yes is not of this kind: its [choice] is ['yes']. *)
Theorem compress_binary_decompress_binary_round_trip :
  forall (data : bytes) (choice : str) (dictionary_lines : option (list str)),
    forallb is_byte data = true ->
    choice <> yes ->
    exists compressed : bytes,
      compress_binary paq_compress data = WroteBytes compressed /\
      decompress_binary paq_decompress compressed choice dictionary_lines
        = WroteBytes data.
Proof.
  intros data choice dictionary_lines Hd Hno.
  destruct (paq_xor_inverse data Hd) as (compressed & Ec & Ed).
  exists compressed. unfold compress_binary, decompress_binary.
  rewrite Ec, Ed. split; [reflexivity|].
  destruct (str_eq_dec choice yes); [contradiction | reflexivity].
Qed.

End Commands.

(** X16: [compress_text] writes nothing where, in the string [text] that
    it has read from its input file in text mode, one whitespace run or
    one word absent from the dictionary has an encoding of more than 255
    bytes: the exception is caught before the output file is opened, and
    such a text is not compressed at all, whatever the compressor. *)
Theorem compress_text_oversized_writes_nothing :
  forall (paq_compress : bytes -> bytes) (text : str) (lines : list str),
    forallb (literal_fits (load_dictionary_from_file lines max_lines_default))
            (PyStr.findall text) = false ->
    compress_text paq_compress text (Some lines) = WroteNothing.
Proof.
  intros paq_compress text lines Hbad. unfold compress_text.
  pose proof (encode_tokens_fits
                (load_dictionary_from_file lines max_lines_default)
                (PyStr.findall text) []) as H.
  rewrite Hbad in H. unfold compress_text_with_dictionary. rewrite H.
  now destruct (Utf8.encode_strict text).
Qed.

Lemma compress_text_oversized_writes_nothing_witness :
  forallb (literal_fits (load_dictionary_from_file [[97; 10]] max_lines_default))
          (PyStr.findall (97 :: repeat 32%Z 300)) = false /\
  compress_text (fun d => d) (97 :: repeat 32%Z 300) (Some [[97; 10]])
    = WroteNothing.
Proof.
  assert (H : forallb (literal_fits
                (load_dictionary_from_file [[97; 10]] max_lines_default))
                (PyStr.findall (97 :: repeat 32%Z 300)) = false)
    by (vm_compute; reflexivity).
  split; [exact H|].
  exact (compress_text_oversized_writes_nothing (fun d => d)
           (97 :: repeat 32%Z 300) [[97; 10]] H).
Defined.

Lemma paq_xor_round_trip_witness :
  (forall data : bytes,
     forallb is_byte data = true -> Ok ((fun d : bytes => d) data) = Ok data) /\
  forallb is_byte [0; 65; 255] = true /\
  exists compressed : bytes,
    compress_bytes_paq_xor (fun d => d) [0; 65; 255] = Ok compressed /\
    decompress_bytes_paq_xor (fun d => Ok d) compressed = Some [0; 65; 255].
Proof.
  assert (Hpaq : forall data : bytes,
            forallb is_byte data = true ->
            Ok ((fun d : bytes => d) data) = Ok data)
    by (intros data _; reflexivity).
  split; [exact Hpaq|]. split; [reflexivity|].
  exact (paq_xor_round_trip (fun d => d) (fun d => Ok d) Hpaq
           [0; 65; 255] eq_refl).
Defined.

Lemma compress_text_decompress_binary_round_trip_witness :
  (forall data : bytes,
     forallb is_byte data = true -> Ok ((fun d : bytes => d) data) = Ok data) /\
  Forall fits_length_byte (PyStr.findall [97; 32; 98]) /\
  exists compressed : bytes,
    compress_text (fun d => d) [97; 32; 98] (Some [[98; 10]])
      = WroteBytes compressed /\
    decompress_binary (fun d => Ok d) compressed yes (Some [[98; 10]])
      = WroteText [97; 32; 98].
Proof.
  assert (Hpaq : forall data : bytes,
            forallb is_byte data = true ->
            Ok ((fun d : bytes => d) data) = Ok data)
    by (intros data _; reflexivity).
  assert (Hfit : Forall fits_length_byte (PyStr.findall [97; 32; 98])).
  { change (PyStr.findall [97; 32; 98]) with [[97]; [32]; [98]].
    repeat (constructor;
            [eexists; split; [reflexivity | apply Nat.leb_le; reflexivity]|]).
    constructor. }
  split; [exact Hpaq|]. split; [exact Hfit|].
  exact (compress_text_decompress_binary_round_trip (fun d => d)
           (fun d => Ok d) Hpaq [97; 32; 98] [[98; 10]] Hfit).
Defined.

Lemma compress_binary_decompress_binary_round_trip_witness :
  (forall data : bytes,
     forallb is_byte data = true -> Ok ((fun d : bytes => d) data) = Ok data) /\
  forallb is_byte [0; 65; 255] = true /\
  [110; 111] <> yes /\
  exists compressed : bytes,
    compress_binary (fun d => d) [0; 65; 255] = WroteBytes compressed /\
    decompress_binary (fun d => Ok d) compressed [110; 111] None
      = WroteBytes [0; 65; 255].
Proof.
  assert (Hpaq : forall data : bytes,
            forallb is_byte data = true ->
            Ok ((fun d : bytes => d) data) = Ok data)
    by (intros data _; reflexivity).
  assert (Hno : [110; 111] <> yes) by discriminate.
  split; [exact Hpaq|]. split; [reflexivity|]. split; [exact Hno|].
  exact (compress_binary_decompress_binary_round_trip (fun d => d)
           (fun d => Ok d) Hpaq [0; 65; 255] [110; 111] None eq_refl Hno).
Defined.

(** ** The Huffman functions *)

Section HuffmanFacts.
Import Huffman.

Lemma pop_least_cons (e : entry) (heap : list entry) :
  pop_least (e :: heap) <> None.
Proof.
  cbn [pop_least]. destruct (pop_least heap) as [[m rest]|]; [|discriminate].
  destruct (entry_ltb m e); discriminate.
Qed.

Lemma pop_least_perm (heap : list entry) :
  forall (m : entry) (rest : list entry),
    pop_least heap = Some (m, rest) -> Permutation heap (m :: rest).
Proof.
  induction heap as [|e heap IH]; intros m rest E; [discriminate|].
  cbn [pop_least] in E.
  destruct (pop_least heap) as [[m' rest']|] eqn:E'.
  - destruct (entry_ltb m' e); injection E as <- <-.
    + rewrite (IH _ _ eq_refl). apply perm_swap.
    + reflexivity.
  - injection E as <- <-. destruct heap as [|e' heap]; [reflexivity|].
    exfalso. exact (pop_least_cons e' heap E').
Qed.

Lemma all_pairs_perm (h1 h2 : list entry) :
  Permutation h1 h2 -> Permutation (all_pairs h1) (all_pairs h2).
Proof.
  unfold all_pairs. induction 1; cbn [flat_map].
  - reflexivity.
  - now apply Permutation_app_head.
  - rewrite !app_assoc. apply Permutation_app_tail, Permutation_app_comm.
  - etransitivity; eauto.
Qed.

Lemma prepend_symbols (bit : Z) (pairs : list pair) :
  map fst (prepend bit pairs) = map fst pairs.
Proof. unfold prepend. rewrite map_map. reflexivity. Qed.

Lemma in_prepend (bit : Z) (pairs : list pair) (p : pair) :
  In p (prepend bit pairs) ->
  exists c, snd p = bit :: c /\ In (fst p, c) pairs.
Proof.
  unfold prepend. rewrite in_map_iff. intros ([s c] & <- & Hin).
  exists c. split; [reflexivity | exact Hin].
Qed.

Lemma prefix_cons (x y : Z) (c1 c2 : str) :
  prefix (x :: c1) (y :: c2) -> x = y /\ prefix c1 c2.
Proof. intros [t E]. injection E as -> ->. split; [reflexivity | now exists t]. Qed.

(** Two lists of pairs without a code that starts another stay so when
    they are joined under the bits 0 and 1. *)
Lemma prefix_free_merge (lo hi : list pair) :
  prefix_free lo -> prefix_free hi ->
  prefix_free (prepend 48 lo ++ prepend 49 hi).
Proof.
  intros Hlo Hhi p q Hp Hq Hne Hpre.
  apply in_app_or in Hp. apply in_app_or in Hq.
  destruct Hp as [Hp | Hp]; apply in_prepend in Hp;
    destruct Hp as (cp & Ep & Hp);
    destruct Hq as [Hq | Hq]; apply in_prepend in Hq;
    destruct Hq as (cq & Eq & Hq);
    rewrite Ep, Eq in Hpre; apply prefix_cons in Hpre;
    destruct Hpre as [Hbit Hpre]; try discriminate.
  - exact (Hlo _ _ Hp Hq Hne Hpre).
  - exact (Hhi _ _ Hp Hq Hne Hpre).
Qed.

Lemma merge_step_spec (heap : list entry) :
  (2 <= length heap)%nat ->
  exists (lo hi : entry) (rest : list entry),
    Permutation heap (lo :: hi :: rest) /\
    merge_step heap
      = Ok ((fst lo + fst hi, prepend 48 (snd lo) ++ prepend 49 (snd hi))
              :: rest).
Proof.
  intros Hlen. unfold merge_step, heappop.
  destruct (pop_least heap) as [[lo heap1]|] eqn:E1.
  - pose proof (pop_least_perm _ _ _ E1) as P1.
    destruct (pop_least heap1) as [[hi heap2]|] eqn:E2.
    + pose proof (pop_least_perm _ _ _ E2) as P2.
      exists lo, hi, heap2. split; [rewrite P1; now apply perm_skip|].
      cbn [bind snd]. rewrite E2. reflexivity.
    + exfalso. apply Permutation_length in P1.
      destruct heap1; [simpl in P1; lia|]. exact (pop_least_cons _ _ E2).
  - exfalso. destruct heap; [simpl in Hlen; lia|].
    exact (pop_least_cons _ _ E1).
Qed.

Lemma heap_ok_perm (keys : list Z) (h1 h2 : list entry) :
  Permutation h1 h2 -> heap_ok keys h1 -> heap_ok keys h2.
Proof.
  intros P [Hk Hf]. split.
  - rewrite <- Hk. apply Permutation_map, all_pairs_perm. now symmetry.
  - rewrite Forall_forall in *. intros e He. apply Hf.
    eapply Permutation_in; [symmetry; exact P | exact He].
Qed.

(** One run of the loop body takes one item from the heap and keeps the
    heap well formed. *)
Lemma merge_step_ok (keys : list Z) (heap : list entry) :
  (2 <= length heap)%nat -> heap_ok keys heap ->
  exists heap', merge_step heap = Ok heap' /\
                heap_ok keys heap' /\ S (length heap') = length heap.
Proof.
  intros Hlen Hok.
  destruct (merge_step_spec heap Hlen) as (lo & hi & rest & P & E).
  eexists. split; [exact E|].
  destruct (heap_ok_perm _ _ _ P Hok) as [Hk Hf].
  split; [split|].
  - rewrite <- Hk. unfold all_pairs. cbn [flat_map fst snd].
    rewrite !map_app, !prepend_symbols, app_assoc. reflexivity.
  - inversion Hf as [|? ? Hlo Hf']; subst.
    inversion Hf' as [|? ? Hhi Hrest]; subst.
    constructor; [|exact Hrest]. cbn [snd]. now apply prefix_free_merge.
  - apply Permutation_length in P. cbn [length] in *. lia.
Qed.

Lemma merge_loop_spec (keys : list Z) (fuel : nat) :
  forall heap : list entry,
    (length heap <= S fuel)%nat -> heap_ok keys heap ->
    exists heap', merge_loop fuel heap = Some (Ok heap') /\
                  heap_ok keys heap' /\
                  length heap' = Nat.min 1 (length heap).
Proof.
  induction fuel as [|fuel IH]; intros heap Hlen Hok; cbn [merge_loop];
    destruct (Nat.ltb_spec 1 (length heap)) as [H|H]; try lia.
  - exists heap. repeat split; auto; try apply Hok. lia.
  - destruct (merge_step_ok keys heap H Hok) as (heap' & E & Hok' & Hl).
    rewrite E. destruct (IH heap') as (heap'' & E'' & Hok'' & Hl'');
      auto; [lia|].
    exists heap''. repeat split; auto; try apply Hok''. lia.
  - exists heap. repeat split; auto; try apply Hok. lia.
Qed.

Lemma initial_heap_ok (frequencies : PyDict.dict Z Z) :
  heap_ok (map fst frequencies)
    (map (fun sw => (snd sw, [(fst sw, [])])) frequencies).
Proof.
  split.
  - induction frequencies as [|[s w] f IH]; [reflexivity|].
    cbn [map all_pairs flat_map app fst snd]. now apply perm_skip.
  - apply Forall_forall. intros e He. apply in_map_iff in He.
    destruct He as ([s w] & <- & _). cbn [snd].
    intros p q [<- | []] [<- | []] Hne. congruence.
Qed.

Lemma insert_by_code_perm (p : pair) (sorted : list pair) :
  Permutation (insert_by_code p sorted) (p :: sorted).
Proof.
  induction sorted as [|q rest IH]; cbn [insert_by_code]; [reflexivity|].
  destruct (str_ltb (snd q) (snd p)); [|reflexivity].
  rewrite IH. apply perm_swap.
Qed.

Lemma sorted_by_code_perm (pairs : list pair) :
  Permutation (sorted_by_code pairs) pairs.
Proof.
  induction pairs as [|p pairs IH]; [reflexivity|].
  cbn [sorted_by_code fold_right]. fold (sorted_by_code pairs).
  rewrite insert_by_code_perm. now apply perm_skip.
Qed.

Lemma prefix_free_perm (l1 l2 : list pair) :
  Permutation l1 l2 -> prefix_free l1 -> prefix_free l2.
Proof.
  intros P H p q Hp Hq.
  apply H; apply (Permutation_in _ (Permutation_sym P)); assumption.
Qed.

(** What [build_huffman_tree] returns for a dictionary that is not
    empty. *)
Lemma build_huffman_tree_ok (frequencies : PyDict.dict Z Z) :
  frequencies <> [] ->
  exists tree,
    build_huffman_tree frequencies = Some (Ok tree) /\
    Permutation (map fst tree) (map fst (PyDict.items frequencies)) /\
    prefix_free tree.
Proof.
  intros Hne. unfold build_huffman_tree, PyDict.items.
  set (heap := map (fun sw => (snd sw, [(fst sw, [])])) frequencies).
  destruct (merge_loop_spec (map fst frequencies) (length heap) heap)
    as (heap' & E & [Hk Hf] & Hl);
    [apply Nat.le_succ_diag_r | apply initial_heap_ok|].
  rewrite E.
  assert (Hlen : length heap' = 1%nat).
  { rewrite Hl. unfold heap. rewrite length_map.
    destruct frequencies; [congruence|]. reflexivity. }
  destruct heap' as [|top [|? ?]]; try discriminate.
  cbn [heappop pop_least].
  exists (sorted_by_code (snd top)). split; [reflexivity|]. split.
  - rewrite (Permutation_map fst (sorted_by_code_perm (snd top))).
    unfold all_pairs in Hk. cbn [flat_map] in Hk.
    now rewrite app_nil_r in Hk.
  - apply (prefix_free_perm (snd top)).
    + symmetry. apply sorted_by_code_perm.
    + now inversion Hf.
Qed.

Lemma codes_fold_get (tree : list pair) (s : Z) (c : str) :
  forall codes0 : PyDict.dict Z str,
    PyDict.get Z.eq_dec
      (fold_left (fun codes p => PyDict.set Z.eq_dec codes (fst p) (snd p))
                 tree codes0) s = Some c ->
    PyDict.get Z.eq_dec codes0 s = Some c \/ In (s, c) tree.
Proof.
  induction tree as [|[s0 c0] tree IH]; intros codes0 H; cbn [fold_left] in H;
    [now left|].
  destruct (IH _ H) as [H0 | Hin]; [|right; now right].
  cbn [fst snd] in H0. destruct (Z.eq_dec s0 s) as [->|NE].
  - rewrite get_set_same in H0. injection H0 as ->. right; now left.
  - rewrite get_set_other in H0 by auto. now left.
Qed.

Lemma codes_fold_key (tree : list pair) (s : Z) :
  forall codes0 : PyDict.dict Z str,
    PyDict.get Z.eq_dec codes0 s <> None \/ In s (map fst tree) ->
    PyDict.get Z.eq_dec
      (fold_left (fun codes p => PyDict.set Z.eq_dec codes (fst p) (snd p))
                 tree codes0) s <> None.
Proof.
  induction tree as [|[s0 c0] tree IH]; intros codes0 H; cbn [fold_left].
  - destruct H as [H | []]. exact H.
  - apply IH. cbn [fst snd map] in *.
    destruct (Z.eq_dec s0 s) as [->|NE].
    + left. rewrite get_set_same. discriminate.
    + rewrite get_set_other by auto.
      destruct H as [H | [H | H]]; auto; congruence.
Qed.

(** X17: [build_huffman_tree] raises [IndexError] on an empty dictionary
    of frequencies; on any other it returns a tree that holds every
    symbol of the dictionary exactly as often as the dictionary does, and
    a lone symbol gets the empty code. *)
Theorem build_huffman_tree_symbols :
  forall frequencies : PyDict.dict Z Z,
    match frequencies with
    | [] => build_huffman_tree frequencies = Some (Raise IndexError)
    | [(symbol, _)] =>
        build_huffman_tree frequencies = Some (Ok [(symbol, [])])
    | _ =>
        exists tree,
          build_huffman_tree frequencies = Some (Ok tree) /\
          Permutation (map fst tree) (map fst (PyDict.items frequencies))
    end.
Proof.
  intros [|[s w] [|sw f]]; try reflexivity.
  destruct (build_huffman_tree_ok ((s, w) :: sw :: f)) as (tree & E & P & _);
    [discriminate|].
  exists tree. split; assumption.
Qed.

(** X18: the codes that [create_huffman_codes] gives to two different
    symbols of a tree of [build_huffman_tree] are never the start of one
    another, so that a concatenation of codes can be read back in one way
    only. *)
Theorem huffman_codes_prefix_free :
  forall (frequencies : PyDict.dict Z Z) (tree : list pair)
         (s1 s2 : Z) (c1 c2 : str),
    build_huffman_tree frequencies = Some (Ok tree) ->
    s1 <> s2 ->
    PyDict.get Z.eq_dec (create_huffman_codes tree) s1 = Some c1 ->
    PyDict.get Z.eq_dec (create_huffman_codes tree) s2 = Some c2 ->
    ~ prefix c1 c2.
Proof.
  intros frequencies tree s1 s2 c1 c2 E Hne H1 H2.
  destruct frequencies as [|sw f]; [discriminate|].
  destruct (build_huffman_tree_ok (sw :: f)) as (tree' & E' & _ & Hpf);
    [discriminate|].
  rewrite E in E'. injection E' as <-.
  apply codes_fold_get in H1. apply codes_fold_get in H2.
  destruct H1 as [H1 | H1]; [discriminate|].
  destruct H2 as [H2 | H2]; [discriminate|].
  exact (Hpf (s1, c1) (s2, c2) H1 H2 Hne).
Qed.

(** X19: the dictionary of codes has a code for every symbol of the
    frequencies, and for nothing else. *)
Theorem huffman_codes_cover_symbols :
  forall (frequencies : PyDict.dict Z Z) (tree : list pair) (s : Z),
    build_huffman_tree frequencies = Some (Ok tree) ->
    (In s (map fst (PyDict.items frequencies)) <->
     PyDict.get Z.eq_dec (create_huffman_codes tree) s <> None).
Proof.
  intros frequencies tree s E.
  destruct frequencies as [|sw f]; [discriminate|].
  destruct (build_huffman_tree_ok (sw :: f)) as (tree' & E' & P & _);
    [discriminate|].
  rewrite E in E'. injection E' as <-. split.
  - intros Hin. apply codes_fold_key. right.
    eapply Permutation_in; [symmetry; exact P | exact Hin].
  - intros Hget.
    destruct (PyDict.get Z.eq_dec (create_huffman_codes tree) s) as [c|] eqn:G;
      [|congruence].
    apply codes_fold_get in G. destruct G as [G | G]; [discriminate|].
    eapply Permutation_in; [exact P|].
    change s with (fst (s, c)). now apply in_map.
Qed.

End HuffmanFacts.

Lemma huffman_codes_prefix_free_witness :
  Huffman.build_huffman_tree [(97, 1); (98, 1); (99, 1)]
    = Some (Ok [(99, [48]); (97, [49; 48]); (98, [49; 49])]) /\
  99 <> 97 /\
  PyDict.get Z.eq_dec
    (Huffman.create_huffman_codes [(99, [48]); (97, [49; 48]); (98, [49; 49])])
    99 = Some [48] /\
  PyDict.get Z.eq_dec
    (Huffman.create_huffman_codes [(99, [48]); (97, [49; 48]); (98, [49; 49])])
    97 = Some [49; 48] /\
  ~ Huffman.prefix [48] [49; 48].
Proof.
  assert (E : Huffman.build_huffman_tree [(97, 1); (98, 1); (99, 1)]
              = Some (Ok [(99, [48]); (97, [49; 48]); (98, [49; 49])]))
    by reflexivity.
  assert (Hne : 99 <> 97) by discriminate.
  split; [exact E|]. split; [exact Hne|].
  split; [reflexivity|]. split; [reflexivity|].
  exact (huffman_codes_prefix_free [(97, 1); (98, 1); (99, 1)] _ 99 97
           [48] [49; 48] E Hne eq_refl eq_refl).
Defined.

Lemma huffman_codes_cover_symbols_witness :
  Huffman.build_huffman_tree [(97, 1); (98, 1); (99, 1)]
    = Some (Ok [(99, [48]); (97, [49; 48]); (98, [49; 49])]) /\
  (In 98 (map fst (PyDict.items [(97, 1); (98, 1); (99, 1)])) <->
   PyDict.get Z.eq_dec
     (Huffman.create_huffman_codes
        [(99, [48]); (97, [49; 48]); (98, [49; 49])]) 98 <> None).
Proof.
  assert (E : Huffman.build_huffman_tree [(97, 1); (98, 1); (99, 1)]
              = Some (Ok [(99, [48]); (97, [49; 48]); (98, [49; 49])]))
    by reflexivity.
  split; [exact E|].
  exact (huffman_codes_cover_symbols [(97, 1); (98, 1); (99, 1)] _ 98 E).
Defined.

(** ** The cursor of the decoder on an encoded stream *)

Section Cursor.

Lemma step_record (rd : id_dict) (dictionary : word_dict) (rec rest : bytes) :
  rd = reverse_of dictionary ->
  record_bytes rec ->
  decode_step (rec ++ rest) rd (0%nat, [])
    = Ok (Continue (length rec, [decoded dictionary rec])).
Proof.
  intros -> [b0 b1 b2 | tag len payload Ht Hl].
  - rewrite step_dict_ref, decoded_dict_ref_alone. reflexivity.
  - rewrite step_literal by (auto; lia).
    rewrite decoded_literal_alone by auto.
    cbn [length]. now rewrite Hl.
Qed.

(** X20: on the output of the encoder the decoder does not drift: from
    the start of any record, one run of the loop body appends the text of
    that record and leaves the cursor at the start of the next record. *)
Theorem decoder_cursor_follows_records :
  forall (text : str) (dictionary dictionary' : word_dict) (data : bytes),
    compress_text_with_dictionary text dictionary = Ok data ->
    exists recs : list bytes,
      Forall2 (fun token rec => record_of dictionary token = Ok rec)
              (PyStr.findall text) recs /\
      data = concat recs /\
      forall (before : list bytes) (rec : bytes) (after : list bytes)
             (result : list str),
        recs = before ++ rec :: after ->
        decode_step data (reverse_of dictionary')
                    (length (concat before), result)
          = Ok (Continue ((length (concat before) + length rec)%nat,
                          result ++ [decoded dictionary' rec])).
Proof.
  intros text dictionary dictionary' data E.
  destruct (encode_tokens_records dictionary _ _ _ E) as (recs & Hall & ->).
  exists recs. split; [exact Hall|]. split; [reflexivity|].
  intros before rec after result ->. cbn [app].
  pose proof (records_framed _ _ _ Hall) as Hframed.
  apply Forall_app in Hframed. destruct Hframed as [_ Hframed].
  inversion Hframed as [|? ? Hrec _]; subst.
  rewrite concat_app. cbn [concat].
  pose proof (decode_step_relocate (reverse_of dictionary') (concat before)
                (rec ++ concat after) 0 result []) as R.
  rewrite Nat.add_0_r, app_nil_r in R. rewrite R.
  rewrite (step_record _ dictionary' rec (concat after) eq_refl Hrec).
  reflexivity.
Qed.

End Cursor.

Lemma decoder_cursor_follows_records_witness :
  compress_text_with_dictionary [97; 32; 98] [([98], 5)]
    = Ok [0; 1; 97; 2; 1; 32; 1; 0; 0; 5] /\
  exists recs : list bytes,
    Forall2 (fun token rec => record_of [([98], 5)] token = Ok rec)
            (PyStr.findall [97; 32; 98]) recs /\
    [0; 1; 97; 2; 1; 32; 1; 0; 0; 5] = concat recs /\
    forall (before : list bytes) (rec : bytes) (after : list bytes)
           (result : list str),
      recs = before ++ rec :: after ->
      decode_step [0; 1; 97; 2; 1; 32; 1; 0; 0; 5] (reverse_of [([98], 5)])
                  (length (concat before), result)
        = Ok (Continue ((length (concat before) + length rec)%nat,
                        result ++ [decoded [([98], 5)] rec])).
Proof.
  assert (E : compress_text_with_dictionary [97; 32; 98] [([98], 5)]
              = Ok [0; 1; 97; 2; 1; 32; 1; 0; 0; 5]) by reflexivity.
  split; [exact E|].
  exact (decoder_cursor_follows_records [97; 32; 98] [([98], 5)]
           [([98], 5)] _ E).
Defined.

Section HuffmanCodes.
Import Huffman.

(** X21: with two symbols or more, no symbol gets the empty code. *)
Theorem huffman_codes_not_empty :
  forall (frequencies : PyDict.dict Z Z) (tree : list pair) (s : Z) (c : str),
    NoDup (map fst (PyDict.items frequencies)) ->
    (2 <= length (PyDict.items frequencies))%nat ->
    build_huffman_tree frequencies = Some (Ok tree) ->
    PyDict.get Z.eq_dec (create_huffman_codes tree) s = Some c ->
    c <> [].
Proof.
  intros frequencies tree s c Hnd Hlen E Hget ->.
  unfold PyDict.items in *.
  destruct frequencies as [|[s1 w1] [|[s2 w2] f]]; try (simpl in Hlen; lia).
  destruct (build_huffman_tree_ok ((s1, w1) :: (s2, w2) :: f))
    as (tree' & E' & P & Hpf); [discriminate|].
  rewrite E in E'. injection E' as <-.
  apply codes_fold_get in Hget. destruct Hget as [Hget | Hin]; [discriminate|].
  assert (Hother : exists s', s' <> s /\ In s' (map fst tree)).
  { cbn [map fst] in Hnd. inversion Hnd as [|? ? Hnotin _]; subst.
    destruct (Z.eq_dec s1 s) as [->|NE].
    - exists s2. split.
      + intros ->. apply Hnotin. now left.
      + apply (Permutation_in _ (Permutation_sym P)). right; now left.
    - exists s1. split; [exact NE|].
      apply (Permutation_in _ (Permutation_sym P)). now left. }
  destruct Hother as (s' & Hne & Hs').
  apply in_map_iff in Hs'. destruct Hs' as ([s0 c'] & Hs0 & Hin').
  cbn [fst] in Hs0. subst s0.
  apply (Hpf (s, []) (s', c') Hin Hin'); [cbn [fst]; congruence|].
  now exists c'.
Qed.

End HuffmanCodes.

Lemma huffman_codes_not_empty_witness :
  NoDup (map fst (PyDict.items [(97, 1); (98, 1); (99, 1)])) /\
  (2 <= length (PyDict.items [(97, 1); (98, 1); (99, 1)]))%nat /\
  Huffman.build_huffman_tree [(97, 1); (98, 1); (99, 1)]
    = Some (Ok [(99, [48]); (97, [49; 48]); (98, [49; 49])]) /\
  PyDict.get Z.eq_dec
    (Huffman.create_huffman_codes [(99, [48]); (97, [49; 48]); (98, [49; 49])])
    99 = Some [48] /\
  [48] <> ([] : str).
Proof.
  assert (Hnd : NoDup (map fst (PyDict.items [(97, 1); (98, 1); (99, 1)]))).
  { repeat constructor; simpl; intuition discriminate. }
  assert (Hlen : (2 <= length (PyDict.items [(97, 1); (98, 1); (99, 1)]))%nat)
    by (apply Nat.leb_le; reflexivity).
  assert (E : Huffman.build_huffman_tree [(97, 1); (98, 1); (99, 1)]
              = Some (Ok [(99, [48]); (97, [49; 48]); (98, [49; 49])]))
    by reflexivity.
  split; [exact Hnd|]. split; [exact Hlen|]. split; [exact E|].
  split; [reflexivity|].
  exact (huffman_codes_not_empty [(97, 1); (98, 1); (99, 1)] _ 99 [48]
           Hnd Hlen E eq_refl).
Defined.
